(** * Uho sprite generator: palette, rasterizer and exporter

    A shallow embedding of [scripts/legendary-sprite-generator.py] (classes
    [RetroColorPalette], [LegendarySprite], [LegendarySpriteGenerator]) and of
    the frame loop of [scripts/create-enhanced-sprite.py].

    Python integers are [Z]; lists are [list] with stdpp's lookup and insert;
    a numpy [uint8] frame of shape (rows, columns, 4) is a record holding its
    shape and its rows of RGBA pixels; a statement that can raise returns
    [option], with [None] for the exception.  IEEE double arithmetic is that of
    [PrimFloat]; the only floating-point operation that IEEE 754 does not fix,
    the power [x ** 0.5] of the C library, is a parameter [pow_half]. *)

From Stdlib Require Import ZArith QArith Floats Uint63 String.
From stdpp Require Import base option list numbers.

Local Open Scope Z_scope.

(** ** Python helpers *)

(** [range(a, b)]: the integers from [a] up to [b - 1], none when [b <= a]. *)
Definition py_range (a b : Z) : list Z := seqZ a (b - a).

(** [list(enumerate(l))]. *)
Definition enumerate {A} (l : list A) : list (nat * A) := zip (seq 0 (length l)) l.

(** [l[i]] for a Python list: a negative [i] counts from the end, and an index
    outside [-len(l), len(l)) raises IndexError. *)
Definition getitem {A} (l : list A) (i : Z) : option A :=
  if (0 <=? i) && (i <? Z.of_nat (length l)) then l !! Z.to_nat i
  else if (- Z.of_nat (length l) <=? i) && (i <? 0) then l !! Z.to_nat (Z.of_nat (length l) + i)
  else None.

(** A sequenced loop [for a in l: s = body(a, s)] in which the body may raise. *)
Fixpoint for_in {A S} (l : list A) (body : A -> S -> option S) (s : S) : option S :=
  match l with
  | [] => Some s
  | a :: l' =>
      match body a s with
      | Some s' => for_in l' body s'
      | None => None
      end
  end.

(** [float(z)] for an integer below 2^63 in absolute value (exact below 2^53,
    which covers every squared distance and coordinate of 16-bit graphics). *)
Definition float_of_Z (z : Z) : float :=
  if z <? 0 then PrimFloat.opp (PrimFloat.of_uint63 (Uint63.of_Z (- z)))
  else PrimFloat.of_uint63 (Uint63.of_Z z).

(** [n / d] on integers: ZeroDivisionError on [d = 0], else the double nearest
    to the quotient. *)
Definition true_div (n d : Z) : option float :=
  if d =? 0 then None else Some (PrimFloat.div (float_of_Z n) (float_of_Z d)).

(** The literal [0.3]: the double nearest to 3/10. *)
Definition f0_3 : float := 0x1.3333333333333p-2%float.

(** ** RetroColorPalette *)

Definition color : Type := Z * Z * Z.

(** [(c >> 3) << 3] *)
Definition quantize (c : Z) : Z := Z.shiftl (Z.shiftr c 3) 3.

(** [colors.index(c)]: position of the first entry equal to [c]; [None] is
    Python's ValueError. *)
Fixpoint index (c : color) (colors : list color) : option nat :=
  match colors with
  | [] => None
  | p :: ps => if decide (p = c) then Some 0%nat else S <$> index c ps
  end.

(** [(r-pr)**2 + (g-pg)**2 + (b-pb)**2] *)
Definition sq_dist (r g b : Z) (p : color) : Z :=
  let '(pr, pg, pb) := p in (r - pr) ^ 2 + (g - pg) ^ 2 + (b - pb) ^ 2.

Record RetroColorPalette : Type := Palette {
  palette_name : string;
  colors : list color
}.

(** [RetroColorPalette(name)] *)
Definition new_palette (name : string) : RetroColorPalette := Palette name [].

Section PaletteCode.
(** [x ** 0.5] on doubles. *)
Variable pow_half : float -> float.

Definition dist (r g b : Z) (p : color) : float :=
  pow_half (float_of_Z (sq_dist r g b p)).

(** One iteration of the search loop on [(min_dist, closest_index)]. *)
Definition closest_step (r g b : Z) (st : float * nat) (ip : nat * color) : float * nat :=
  let '(min_dist, closest_index) := st in
  let '(i, p) := ip in
  if PrimFloat.ltb (dist r g b p) min_dist then (dist r g b p, i)
  else (min_dist, closest_index).

Definition find_closest_color (colors : list color) (r g b : Z) : nat :=
  snd (fold_left (closest_step r g b) (enumerate colors) (infinity, 0%nat)).

(** [add_color]: the returned index ([None] if [index] raised) and the
    palette after the call. *)
Definition add_color (self : RetroColorPalette) (r g b : Z)
    : option nat * RetroColorPalette :=
  let r := quantize r in
  let g := quantize g in
  let b := quantize b in
  let c : color := (r, g, b) in
  if bool_decide (c ∉ colors self) then
    if bool_decide (length (colors self) < 16)%nat then
      let self := Palette (palette_name self) (colors self ++ [c]) in
      (index c (colors self), self)
    else (Some (find_closest_color (colors self) r g b), self)
  else (index c (colors self), self).

(** The palette after a sequence of [add_color] calls, whatever they return. *)
Definition add_colors (self : RetroColorPalette) (calls : list (Z * Z * Z))
    : RetroColorPalette :=
  fold_left (fun p '(r, g, b) => snd (add_color p r g b)) calls self.
End PaletteCode.


(** ** Frames *)

(** An RGBA pixel, [frame[y, x]]. *)
Definition pixel : Type := Z * Z * Z * Z.

(** A numpy array of shape [(shape0, shape1, 4)], as its rows of pixels. *)
Record frame : Type := Frame {
  shape0 : nat;
  shape1 : nat;
  rows : list (list pixel)
}.

(** The data agrees with the shape, as for every numpy array. *)
Definition frame_wf (f : frame) : Prop :=
  length (rows f) = shape0 f /\ Forall (fun row => length row = shape1 f) (rows f).

(** [np.zeros((h, w, 4), dtype=np.uint8)] *)
Definition zeros (h w : nat) : frame :=
  Frame h w (replicate h (replicate w (0, 0, 0, 0))).

(** Storing a Python integer into a [uint8] cell: the values 0..255, the only
    ones the generator stores, are kept as they are; of another value numpy 1
    keeps the low 8 bits. *)
Definition u8 (v : Z) : Z := v mod 256.

(** [frame[y, x] = v] for [0 <= y < shape0] and [0 <= x < shape1]. *)
Definition frame_set (f : frame) (y x : Z) (v : pixel) : frame :=
  Frame (shape0 f) (shape1 f) (alter (fun row => <[Z.to_nat x := v]> row) (Z.to_nat y) (rows f)).

(** Reading [frame[y, x]] at non-negative indices; [None] outside the array. *)
Definition pixel_at (f : frame) (x y : Z) : option pixel :=
  if (0 <=? x) && (0 <=? y) then rows f !! Z.to_nat y ≫= (fun row => row !! Z.to_nat x)
  else None.

(** ** LegendarySpriteGenerator: drawing primitives *)

Definition set_pixel_safe (f : frame) (palette : RetroColorPalette)
    (x y r g b a : Z) : frame :=
  if (0 <=? x) && (x <? Z.of_nat (shape1 f)) && ((0 <=? y) && (y <? Z.of_nat (shape0 f)))
  then frame_set f y x (u8 r, u8 g, u8 b, u8 a)
  else f.

(** [color = palette.colors[color_idx]; self.set_pixel_safe(frame, palette, x, y, *color)] *)
Definition paint (f : frame) (palette : RetroColorPalette) (x y color_idx : Z) : option frame :=
  '(r, g, b) ← getitem (colors palette) color_idx;
  Some (set_pixel_safe f palette x y r g b 255).

Definition draw_circle_with_shading (f : frame) (palette : RetroColorPalette)
    (cx cy radius base_color shadow_color highlight_color : Z) : option frame :=
  for_in (py_range (Z.max 0 (cy - radius)) (Z.min (Z.of_nat (shape0 f)) (cy + radius + 1)))
    (fun y f =>
      for_in (py_range (Z.max 0 (cx - radius)) (Z.min (Z.of_nat (shape1 f)) (cx + radius + 1)))
        (fun x f =>
          let dx := x - cx in
          let dy := y - cy in
          let dist_sq := dx * dx + dy * dy in
          if dist_sq <=? radius * radius then
            light_factor ← true_div (- dx - dy) (radius * 2);
            let color_idx :=
              if PrimFloat.ltb f0_3 light_factor then highlight_color
              else if PrimFloat.ltb light_factor (PrimFloat.opp f0_3) then shadow_color
              else base_color in
            paint f palette x y color_idx
          else Some f) f) f.

Definition draw_rect_with_shading (f : frame) (palette : RetroColorPalette)
    (x y width height base_color shadow_color highlight_color : Z) : option frame :=
  for_in (py_range y (Z.min (Z.of_nat (shape0 f)) (y + height)))
    (fun py f =>
      for_in (py_range x (Z.min (Z.of_nat (shape1 f)) (x + width)))
        (fun px f =>
          let color_idx :=
            if (px =? x) || (py =? y) then highlight_color
            else if (px =? x + width - 1) || (py =? y + height - 1) then shadow_color
            else base_color in
          paint f palette px py color_idx) f) f.

Definition draw_hair_front (f : frame) (palette : RetroColorPalette)
    (cx cy : Z) (direction : string) (base_color shadow_color highlight_color : Z) : option frame :=
  let hair_pixels :=
    [(cx-2, cy); (cx-1, cy); (cx, cy); (cx+1, cy); (cx+2, cy);
     (cx-2, cy+1); (cx+2, cy+1);
     (cx-1, cy+2); (cx+1, cy+2)] in
  for_in hair_pixels
    (fun '(px, py) f =>
      if String.eqb direction "west" && (cx <? px) then Some f
      else if String.eqb direction "east" && (px <? cx) then Some f
      else
        let color_idx :=
          if px <? cx then (if negb (String.eqb direction "east") then shadow_color else base_color)
          else if cx <? px then (if negb (String.eqb direction "west") then highlight_color else base_color)
          else base_color in
        paint f palette px py color_idx) f.

Definition draw_hair_back (f : frame) (palette : RetroColorPalette)
    (cx cy : Z) (base_color shadow_color highlight_color : Z) : option frame :=
  let back_hair_pixels :=
    [(cx-2, cy); (cx-1, cy); (cx, cy); (cx+1, cy); (cx+2, cy);
     (cx-2, cy+1); (cx-1, cy+1); (cx, cy+1); (cx+1, cy+1); (cx+2, cy+1)] in
  for_in back_hair_pixels (fun '(px, py) f => paint f palette px py base_color) f.

(** The three tones of a brick-wall pixel. *)
Inductive tone : Type := Dark | Light | Base.

(** The branch taken at [(x, y)]; Python's [and] binds tighter than [or]. *)
Definition brick_tone (x y : Z) : tone :=
  if (y mod 4 =? 3) || ((y / 4) mod 2 =? 0) && (x mod 8 =? 7)
     || ((y / 4) mod 2 =? 1) && (x mod 8 =? 3) then Dark
  else if (x mod 8 =? 0) && ((y / 4) mod 2 =? 0) || (x mod 8 =? 4) && ((y / 4) mod 2 =? 1) then Light
  else Base.

Definition draw_brick_wall (f : frame) (palette : RetroColorPalette)
    (base dark light : Z) : option frame :=
  base_color ← getitem (colors palette) base;
  dark_color ← getitem (colors palette) dark;
  light_color ← getitem (colors palette) light;
  for_in (py_range 0 16)
    (fun y f =>
      for_in (py_range 0 16)
        (fun x f =>
          let '(r, g, b) :=
            match brick_tone x y with
            | Dark => dark_color
            | Light => light_color
            | Base => base_color
            end in
          Some (set_pixel_safe f palette x y r g b 255)) f) f.

Definition draw_concrete_tile (f : frame) (palette : RetroColorPalette)
    (base dark light : Z) : option frame :=
  base_color ← getitem (colors palette) base;
  dark_color ← getitem (colors palette) dark;
  light_color ← getitem (colors palette) light;
  for_in (py_range 0 16)
    (fun y f =>
      for_in (py_range 0 16)
        (fun x f =>
          let '(r, g, b) :=
            if (x + y) mod 4 =? 0 then light_color
            else if (x + y) mod 3 =? 0 then dark_color
            else base_color in
          Some (set_pixel_safe f palette x y r g b 255)) f) f.

Definition draw_asphalt_road (f : frame) (palette : RetroColorPalette)
    (base dark line_color : Z) : option frame :=
  base_rgb ← getitem (colors palette) base;
  dark_rgb ← getitem (colors palette) dark;
  line_rgb ← getitem (colors palette) line_color;
  for_in (py_range 0 16)
    (fun y f =>
      for_in (py_range 0 16)
        (fun x f =>
          let '(r, g, b) :=
            if (y =? 7) || (y =? 8) then
              (if x mod 4 <? 2 then line_rgb else base_rgb)
            else
              (if (x + y * 3) mod 7 =? 0 then dark_rgb else base_rgb) in
          Some (set_pixel_safe f palette x y r g b 255)) f) f.

Definition draw_grass_patch (f : frame) (palette : RetroColorPalette)
    (base dark light : Z) : option frame :=
  base_color ← getitem (colors palette) base;
  dark_color ← getitem (colors palette) dark;
  light_color ← getitem (colors palette) light;
  for_in (py_range 0 16)
    (fun y f =>
      for_in (py_range 0 16)
        (fun x f =>
          let rand_val := (x * 7 + y * 11) mod 13 in
          let '(r, g, b) :=
            if rand_val <? 2 then light_color
            else if rand_val <? 5 then dark_color
            else base_color in
          Some (set_pixel_safe f palette x y r g b 255)) f) f.

(** ** LegendarySpriteGenerator: the player character *)

(** The walking offset of animation frame [frame_idx]
    ([create_enhanced_player_sprite]). *)
Definition walk_offset (frame_idx : Z) : Z :=
  if frame_idx =? 1 then -1 else if frame_idx =? 3 then 1 else 0.

Definition legs_y : Z := 11.
Definition left_leg_y (walk_offset : Z) : Z := legs_y + walk_offset.
Definition right_leg_y (walk_offset : Z) : Z := legs_y - walk_offset.

Definition draw_legendary_character (f : frame) (palette : RetroColorPalette)
    (direction : string) (walk_offset : Z)
    (skin_base skin_shadow skin_highlight hair_base hair_shadow hair_highlight
     jacket_base jacket_shadow jacket_highlight pants_base pants_shadow pants_highlight
     shoes_base shirt_color : Z) : option frame :=
  let head_y := 2 in
  f ← draw_circle_with_shading f palette 8 (head_y + 2) 3 skin_base skin_shadow skin_highlight;
  f ← (if negb (String.eqb direction "north")
       then draw_hair_front f palette 8 head_y direction hair_base hair_shadow hair_highlight
       else draw_hair_back f palette 8 head_y hair_base hair_shadow hair_highlight);
  let f :=
    if String.eqb direction "south" then
      set_pixel_safe (set_pixel_safe f palette 7 (head_y + 2) 0 0 0 255) palette 9 (head_y + 2) 0 0 0 255
    else if String.eqb direction "west" then set_pixel_safe f palette 7 (head_y + 2) 0 0 0 255
    else if String.eqb direction "east" then set_pixel_safe f palette 9 (head_y + 2) 0 0 0 255
    else f in
  let body_y := 6 in
  f ← draw_rect_with_shading f palette 6 body_y 4 5 jacket_base jacket_shadow jacket_highlight;
  f ← draw_rect_with_shading f palette 7 body_y 2 1 shirt_color jacket_shadow jacket_highlight;
  f ← (if negb (String.eqb direction "west")
       then draw_rect_with_shading f palette 10 (body_y + 1) 1 3 jacket_base jacket_shadow jacket_highlight
       else Some f);
  f ← (if negb (String.eqb direction "east")
       then draw_rect_with_shading f palette 5 (body_y + 1) 1 3 jacket_base jacket_shadow jacket_highlight
       else Some f);
  let left_leg_y := left_leg_y walk_offset in
  let right_leg_y := right_leg_y walk_offset in
  f ← draw_rect_with_shading f palette 6 left_leg_y 1 4 pants_base pants_shadow pants_highlight;
  f ← draw_rect_with_shading f palette 9 right_leg_y 1 4 pants_base pants_shadow pants_highlight;
  f ← paint f palette 5 (left_leg_y + 3) shoes_base;
  f ← paint f palette 6 (left_leg_y + 3) shoes_base;
  f ← paint f palette 9 (right_leg_y + 3) shoes_base;
  paint f palette 10 (right_leg_y + 3) shoes_base.

(** ** LegendarySprite *)

Record LegendarySprite : Type := Sprite {
  width : Z;
  height : Z;
  name : string;
  frames : list frame;
  palette : RetroColorPalette
}.

Definition add_frame (self : LegendarySprite) (image_array : frame) : LegendarySprite :=
  Sprite (width self) (height self) (name self) (frames self ++ [image_array]) (palette self).

(** The record written to [<name>_palette.json]. *)
Record palette_data : Type := PaletteData {
  pd_name : string;
  pd_colors : list color;
  pd_width : Z;
  pd_height : Z;
  pd_frames : nat
}.

Inductive file_content : Type :=
  | Png (image : frame)
  | Json (data : palette_data).

(** [Image.new('RGBA', (w, h), fill)]; a negative size raises ValueError. *)
Definition Image_new (w h : Z) (fill : pixel) : option frame :=
  if (w <? 0) || (h <? 0) then None
  else Some (Frame (Z.to_nat h) (Z.to_nat w) (replicate (Z.to_nat h) (replicate (Z.to_nat w) fill))).

(** [sheet.paste(img, (ox, oy))] without a mask: the pixels of [img] replace
    those of [sheet] from [(ox, oy)] on, clipped to the sheet. *)
Definition paste (sheet img : frame) (ox oy : Z) : frame :=
  fold_left (fun sheet y =>
    fold_left (fun sheet x =>
      match pixel_at img x y with
      | Some v =>
          if (0 <=? ox + x) && (ox + x <? Z.of_nat (shape1 sheet))
             && ((0 <=? oy + y) && (oy + y <? Z.of_nat (shape0 sheet)))
          then frame_set sheet (oy + y) (ox + x) v
          else sheet
      | None => sheet
      end) (py_range 0 (Z.of_nat (shape1 img))) sheet)
    (py_range 0 (Z.of_nat (shape0 img))) sheet.

(** [save_to_files]: the files written, as (file name in [output_dir], content),
    and [None] when a call raised; creating the directory and printing the
    status line are left out. *)
Definition save_to_files (self : LegendarySprite) : option (list (string * file_content)) :=
  if bool_decide (frames self ≠ []) then
    let sheet_width := width self * Z.of_nat (length (frames self)) in
    let sheet_height := height self in
    sheet ← Image_new sheet_width sheet_height (0, 0, 0, 0);
    let sheet :=
      fold_left (fun sheet '(i, frame) => paste sheet frame (Z.of_nat i * width self) 0)
        (enumerate (frames self)) sheet in
    let data :=
      PaletteData (name self) (colors (palette self)) (width self) (height self)
        (length (frames self)) in
    Some [((name self ++ ".png")%string, Png sheet);
          ((name self ++ "_palette.json")%string, Json data)]
  else Some [].

(** ** create-enhanced-sprite.py: the frame loop *)

Module Enhanced.
(** [frame_in_direction = i % 4] *)
Definition frame_in_direction (i : Z) : Z := i mod 4.

(** [frame_in_direction in [1, 3]] *)
Definition is_walking (frame_in_direction : Z) : bool :=
  bool_decide (frame_in_direction ∈ [1; 3]).

Definition leg_offset (frame_in_direction : Z) : Z :=
  if frame_in_direction =? 1 then 1 else if frame_in_direction =? 3 then -1 else 0.

(** [draw_character]: the leg rows for a frame whose top-left corner is at row [y]. *)
Definition legs_y (y : Z) : Z := y + 11.

Definition left_leg_y (y : Z) (is_walking : bool) (leg_offset : Z) : Z :=
  legs_y y + (if is_walking then leg_offset else 0).

Definition right_leg_y (y : Z) (is_walking : bool) (leg_offset : Z) : Z :=
  legs_y y + (if is_walking then - leg_offset else 0).
End Enhanced.

(** ** Building the player sprite *)

Section GeneratorCode.
Variable pow_half : float -> float.

(** [LegendarySprite(width, height, name)]: the palette starts with
    transparent black. *)
Definition new_sprite (width height : Z) (name : string) : LegendarySprite :=
  Sprite width height name []
    (snd (add_color pow_half (new_palette (name ++ "_palette")) 0 0 0)).

(** [sprite.palette.add_color(r, g, b)] *)
Definition sprite_add_color (sprite : LegendarySprite) (r g b : Z)
    : option (Z * LegendarySprite) :=
  let '(i, p) := add_color pow_half (palette sprite) r g b in
  i ← i;
  Some (Z.of_nat i, Sprite (width sprite) (height sprite) (name sprite) (frames sprite) p).

Definition create_enhanced_player_sprite : option LegendarySprite :=
  let sprite := new_sprite 16 16 "legendary_player" in
  '(skin_base, sprite) ← sprite_add_color sprite 255 220 177;
  '(skin_shadow, sprite) ← sprite_add_color sprite 210 180 140;
  '(skin_highlight, sprite) ← sprite_add_color sprite 255 240 200;
  '(hair_base, sprite) ← sprite_add_color sprite 101 67 33;
  '(hair_shadow, sprite) ← sprite_add_color sprite 70 45 20;
  '(hair_highlight, sprite) ← sprite_add_color sprite 140 95 50;
  '(jacket_base, sprite) ← sprite_add_color sprite 72 118 170;
  '(jacket_shadow, sprite) ← sprite_add_color sprite 50 85 125;
  '(jacket_highlight, sprite) ← sprite_add_color sprite 100 150 200;
  '(pants_base, sprite) ← sprite_add_color sprite 45 45 60;
  '(pants_shadow, sprite) ← sprite_add_color sprite 30 30 40;
  '(pants_highlight, sprite) ← sprite_add_color sprite 65 65 85;
  '(shoes_base, sprite) ← sprite_add_color sprite 30 30 30;
  '(shirt_color, sprite) ← sprite_add_color sprite 240 240 240;
  let directions := ["south"; "west"; "east"; "north"]%string in
  for_in directions (fun direction sprite =>
    for_in (py_range 0 4) (fun frame_idx sprite =>
      let frame := zeros 16 16 in
      let walk_offset := walk_offset frame_idx in
      frame ← draw_legendary_character frame (palette sprite) direction walk_offset
                skin_base skin_shadow skin_highlight
                hair_base hair_shadow hair_highlight
                jacket_base jacket_shadow jacket_highlight
                pants_base pants_shadow pants_highlight
                shoes_base shirt_color;
      Some (add_frame sprite frame)) sprite) sprite.

(** [needle in s] on strings *)
Fixpoint str_in (needle s : string) : bool :=
  String.prefix needle s
  || match s with
     | EmptyString => false
     | String _ s' => str_in needle s'
     end.

Definition create_urban_tileset : option LegendarySprite :=
  let tileset := new_sprite 16 16 "urban_tiles" in
  '(concrete_base, tileset) ← sprite_add_color tileset 128 128 128;
  '(concrete_dark, tileset) ← sprite_add_color tileset 96 96 96;
  '(concrete_light, tileset) ← sprite_add_color tileset 160 160 160;
  '(brick_base, tileset) ← sprite_add_color tileset 180 100 80;
  '(brick_dark, tileset) ← sprite_add_color tileset 140 70 50;
  '(brick_light, tileset) ← sprite_add_color tileset 220 140 120;
  '(asphalt_base, tileset) ← sprite_add_color tileset 64 64 64;
  '(asphalt_dark, tileset) ← sprite_add_color tileset 32 32 32;
  '(yellow_line, tileset) ← sprite_add_color tileset 255 255 0;
  '(white_line, tileset) ← sprite_add_color tileset 255 255 255;
  '(grass_base, tileset) ← sprite_add_color tileset 64 128 64;
  '(grass_dark, tileset) ← sprite_add_color tileset 32 96 32;
  '(grass_light, tileset) ← sprite_add_color tileset 96 160 96;
  let tile_types :=
    [("concrete_floor", concrete_base, concrete_dark, concrete_light);
     ("brick_wall", brick_base, brick_dark, brick_light);
     ("asphalt_road", asphalt_base, asphalt_dark, asphalt_base);
     ("grass_patch", grass_base, grass_dark, grass_light)]%string in
  for_in tile_types (fun '(tile_name, base, dark, light) tileset =>
    let frame := zeros 16 16 in
    frame ←
      (if str_in "concrete" tile_name then
         draw_concrete_tile frame (palette tileset) base dark light
       else if str_in "brick" tile_name then
         draw_brick_wall frame (palette tileset) base dark light
       else if str_in "asphalt" tile_name then
         draw_asphalt_road frame (palette tileset) base dark yellow_line
       else if str_in "grass" tile_name then
         draw_grass_patch frame (palette tileset) base dark light
       else Some frame);
    Some (add_frame tileset frame)) tileset.

(** [main]: the files written to [assets/sprites/legendary], in order; the
    printed lines are left out. *)
Definition main : option (list (string * file_content)) :=
  player_sprite ← create_enhanced_player_sprite;
  player_files ← save_to_files player_sprite;
  urban_tiles ← create_urban_tileset;
  tile_files ← save_to_files urban_tiles;
  Some (player_files ++ tile_files).
End GeneratorCode.

(** ** Vocabulary of the statements *)

(** A stored triple whose channels have their low 3 bits clear. *)
Definition quantized (c : color) : Prop :=
  let '(r, g, b) := c in Z.land r 7 = 0 /\ Z.land g 7 = 0 /\ Z.land b 7 = 0.

(** The stored entries: at most 16, pairwise distinct, all quantized. *)
Definition palette_ok (self : RetroColorPalette) : Prop :=
  (length (colors self) <= 16)%nat /\ NoDup (colors self) /\ Forall quantized (colors self).

(** [(x, y)] is a pixel of the frame. *)
Definition in_bounds (f : frame) (x y : Z) : Prop :=
  0 <= x < Z.of_nat (shape1 f) /\ 0 <= y < Z.of_nat (shape0 f).

(** The guarded store shared by [set_pixel_safe] and [paste]. *)
Definition write (f : frame) (x y : Z) (v : pixel) : frame :=
  if (0 <=? x) && (x <? Z.of_nat (shape1 f)) && ((0 <=? y) && (y <? Z.of_nat (shape0 f)))
  then frame_set f y x v
  else f.

(** What a drawing loop stores at a coordinate, if anything. *)
Definition stroke (sel : Z -> Z -> option pixel) (f : frame) (p : Z * Z) : frame :=
  match sel (fst p) (snd p) with
  | Some v => write f (fst p) (snd p) v
  | None => f
  end.

(** The writes of a loop over the coordinates [ps], in order. *)
Definition strokes (sel : Z -> Z -> option pixel) (ps : list (Z * Z)) (f : frame) : frame :=
  fold_left (stroke sel) ps f.

(** The coordinates of a nested loop, rows outermost. *)
Definition grid (ys xs : list Z) : list (Z * Z) :=
  y ← ys; (fun x => (x, y)) <$> xs.

(** The opaque pixel that [set_pixel_safe(..., *color)] stores. *)
Definition opaque (c : color) : pixel :=
  let '(r, g, b) := c in (u8 r, u8 g, u8 b, 255).

(** The index [draw_rect_with_shading] picks at [(px, py)]. *)
Definition rect_idx (x y width height base_color shadow_color highlight_color px py : Z) : Z :=
  if (px =? x) || (py =? y) then highlight_color
  else if (px =? x + width - 1) || (py =? y + height - 1) then shadow_color
  else base_color.




(** The double [light_factor] of the pixel at offset [(dx, dy)] from the center. *)
Definition light_factor (dx dy radius : Z) : float :=
  PrimFloat.div (float_of_Z (- dx - dy)) (float_of_Z (radius * 2)).

(** The index [draw_circle_with_shading] picks at offset [(dx, dy)]. *)
Definition circle_idx (radius base_color shadow_color highlight_color dx dy : Z) : Z :=
  if PrimFloat.ltb f0_3 (light_factor dx dy radius) then highlight_color
  else if PrimFloat.ltb (light_factor dx dy radius) (PrimFloat.opp f0_3) then shadow_color
  else base_color.

(** The color of a tone, from the three colors of the tile. *)
Definition tone_color (cb cd cl : color) (t : tone) : color :=
  match t with Dark => cd | Light => cl | Base => cb end.




(** A drawing step keeps the frame an array of the same shape. *)
Definition same_shape (f0 f : frame) : Prop :=
  frame_wf f /\ shape0 f = shape0 f0 /\ shape1 f = shape1 f0.

(** The frame keeps its shape and the pixel [(x0, y0)]. *)
Definition keeps (f0 : frame) (x0 y0 : Z) (f : frame) : Prop :=
  same_shape f0 f /\ pixel_at f x0 y0 = pixel_at f0 x0 y0.

(** The frame [f] has the shape of [f0], and each of its pixels is the pixel
    of [f0] at that place, an opaque black or an opaque color of the palette. *)
Definition drawn (palette : RetroColorPalette) (f0 f : frame) : Prop :=
  same_shape f0 f /\
  forall x y v, pixel_at f x y = Some v ->
    pixel_at f0 x y = Some v \/ v = (0, 0, 0, 255)
    \/ exists c, c ∈ colors palette /\ v = opaque c.

(** A sheet of the given size whose pixels are transparent or opaque colors of
    the list. *)
Definition sheet_ok (w h : nat) (cs : list color) (sheet : frame) : bool :=
  bool_decide (shape1 sheet = w) && bool_decide (shape0 sheet = h)
  && bool_decide (length (rows sheet) = h)
  && forallb (fun row =>
       bool_decide (length row = w)
       && forallb (fun v =>
            bool_decide (v = (0, 0, 0, 0))
            || existsb (fun c => bool_decide (v = opaque c)) cs) row) (rows sheet).

(** The pixels of the front hair around [(cx, cy)]. *)
Definition hair_pixels (cx cy : Z) : list (Z * Z) :=
  [(cx-2, cy); (cx-1, cy); (cx, cy); (cx+1, cy); (cx+2, cy);
   (cx-2, cy+1); (cx+2, cy+1);
   (cx-1, cy+2); (cx+1, cy+2)].

(** The pixels of the back hair around [(cx, cy)]. *)
Definition back_hair_pixels (cx cy : Z) : list (Z * Z) :=
  [(cx-2, cy); (cx-1, cy); (cx, cy); (cx+1, cy); (cx+2, cy);
   (cx-2, cy+1); (cx-1, cy+1); (cx, cy+1); (cx+1, cy+1); (cx+2, cy+1)].

(** The eyes step of [draw_legendary_character], on row [head_y + 2 = 4]. *)
Definition draw_eyes (f : frame) (palette : RetroColorPalette) (direction : string) : frame :=
  if String.eqb direction "south" then
    set_pixel_safe (set_pixel_safe f palette 7 4 0 0 0 255) palette 9 4 0 0 0 255
  else if String.eqb direction "west" then set_pixel_safe f palette 7 4 0 0 0 255
  else if String.eqb direction "east" then set_pixel_safe f palette 9 4 0 0 0 255
  else f.

(** ** Sample inputs *)

(** The calls of [create_enhanced_player_sprite], after the transparent black
    of the constructor, and a yellow: sixteen distinct colors. *)
Definition sample_calls : list (Z * Z * Z) :=
  [(0, 0, 0); (255, 220, 177); (210, 180, 140); (255, 240, 200);
   (101, 67, 33); (70, 45, 20); (140, 95, 50);
   (72, 118, 170); (50, 85, 125); (100, 150, 200);
   (45, 45, 60); (30, 30, 40); (65, 65, 85);
   (30, 30, 30); (240, 240, 240); (255, 255, 0)].

(** A full palette, built with the IEEE square root for [x ** 0.5]. *)
Definition sample_palette : RetroColorPalette :=
  add_colors PrimFloat.sqrt (new_palette "sample") sample_calls.


(** * Properties *)

(** ** Python helpers *)

Lemma elem_of_py_range (a b i : Z) : i ∈ py_range a b <-> a <= i < b.
Proof. unfold py_range. rewrite elem_of_seqZ. lia. Qed.

Lemma enumerate_snoc {A} (l : list A) (x : A) :
  enumerate (l ++ [x]) = enumerate l ++ [(length l, x)].
Proof.
  unfold enumerate. rewrite length_app, seq_app. simpl.
  rewrite zip_with_app by (by rewrite length_seq). done.
Qed.

Lemma getitem_of_nat {A} (l : list A) (i : nat) : getitem l (Z.of_nat i) = l !! i.
Proof.
  unfold getitem. destruct (decide (i < length l)%nat) as [Hi|Hi].
  - replace ((0 <=? Z.of_nat i) && (Z.of_nat i <? Z.of_nat (length l))) with true
      by (symmetry; apply andb_true_iff; split; [apply Z.leb_le | apply Z.ltb_lt]; lia).
    by rewrite Nat2Z.id.
  - replace ((0 <=? Z.of_nat i) && (Z.of_nat i <? Z.of_nat (length l))) with false
      by (symmetry; apply andb_false_iff; right; apply Z.ltb_ge; lia).
    replace (Z.of_nat i <? 0) with false by (symmetry; apply Z.ltb_ge; lia).
    rewrite andb_false_r. symmetry. apply lookup_ge_None. lia.
Qed.

(** ** The palette *)

Lemma quantize_low_bits (c : Z) : Z.land (quantize c) 7 = 0.
Proof.
  unfold quantize. apply Z.bits_inj'. intros n Hn.
  rewrite Z.land_spec, Z.bits_0.
  destruct (decide (n < 3)) as [Hlt|Hge].
  - rewrite Z.shiftl_spec_low by lia. done.
  - replace 7 with (Z.ones 3) by done.
    rewrite Z.ones_spec_high by lia. apply andb_false_r.
Qed.

Lemma quantize_idemp (c : Z) : quantize (quantize c) = quantize c.
Proof.
  unfold quantize. rewrite !Z.shiftr_div_pow2, !Z.shiftl_mul_pow2 by lia.
  rewrite Z.div_mul by lia. done.
Qed.

Lemma index_Some (c : color) (l : list color) :
  c ∈ l -> exists i, index c l = Some i /\ l !! i = Some c /\
                     forall j, (j < i)%nat -> l !! j <> Some c.
Proof.
  induction l as [|p ps IH]; intros Hin.
  - by apply elem_of_nil in Hin.
  - simpl. destruct (decide (p = c)) as [->|Hne].
    + exists 0%nat. split_and!; [done..|]. intros j Hj. lia.
    + apply elem_of_cons in Hin as [->|Hin]; [done|].
      destruct (IH Hin) as (i & Hi & Hl & Hmin).
      exists (S i). rewrite Hi. split_and!; [done..|].
      intros [|j] Hj; simpl; [congruence|]. apply Hmin. lia.
Qed.

Lemma index_app_l (c : color) (l l' : list color) :
  c ∈ l -> index c (l ++ l') = index c l.
Proof.
  induction l as [|p ps IH]; intros Hin.
  - by apply elem_of_nil in Hin.
  - simpl. destruct (decide (p = c)); [done|].
    apply elem_of_cons in Hin as [->|Hin]; [done|]. by rewrite IH.
Qed.

Lemma index_snoc_fresh (c : color) (l : list color) :
  c ∉ l -> index c (l ++ [c]) = Some (length l).
Proof.
  induction l as [|p ps IH]; intros Hin; simpl.
  - by rewrite decide_True.
  - apply not_elem_of_cons in Hin as [Hne Hin].
    rewrite decide_False by done. by rewrite IH.
Qed.

Section PaletteProofs.
Variable pow_half : float -> float.

Lemma find_closest_color_nil (r g b : Z) : find_closest_color pow_half [] r g b = 0%nat.
Proof. reflexivity. Qed.

Lemma find_closest_color_snoc (l : list color) (x : color) (r g b : Z) :
  find_closest_color pow_half (l ++ [x]) r g b = length l \/
  find_closest_color pow_half (l ++ [x]) r g b = find_closest_color pow_half l r g b.
Proof.
  unfold find_closest_color. rewrite enumerate_snoc, fold_left_app. simpl.
  destruct (fold_left _ (enumerate l) _) as [m k]. simpl.
  destruct (PrimFloat.ltb _ m); simpl; auto.
Qed.

Lemma find_closest_color_lt (l : list color) (r g b : Z) :
  l <> [] -> (find_closest_color pow_half l r g b < length l)%nat.
Proof.
  induction l as [|x l IH] using rev_ind; [done|]. intros _.
  rewrite length_app. simpl.
  destruct (find_closest_color_snoc l x r g b) as [-> | ->]; [lia|].
  destruct l as [|y l']; [rewrite find_closest_color_nil; simpl; lia|].
  specialize (IH ltac:(done)). lia.
Qed.
End PaletteProofs.


Section PaletteSearch.
Variable pow_half : float -> float.
Variables r g b : Z.

End PaletteSearch.

Section PaletteClaims.
Variable pow_half : float -> float.

Lemma add_color_known (self : RetroColorPalette) (r g b : Z) :
  (quantize r, quantize g, quantize b) ∈ colors self ->
  add_color pow_half self r g b
    = (index (quantize r, quantize g, quantize b) (colors self), self).
Proof.
  intros Hin. unfold add_color. rewrite bool_decide_eq_false_2; [done|]. by intros H.
Qed.

Lemma add_color_append (self : RetroColorPalette) (r g b : Z) :
  (quantize r, quantize g, quantize b) ∉ colors self ->
  (length (colors self) < 16)%nat ->
  add_color pow_half self r g b
    = (Some (length (colors self)),
       Palette (palette_name self) (colors self ++ [(quantize r, quantize g, quantize b)])).
Proof.
  intros Hin Hlen. unfold add_color.
  rewrite bool_decide_eq_true_2 by done. rewrite bool_decide_eq_true_2 by done.
  cbn [colors]. by rewrite index_snoc_fresh.
Qed.

Lemma add_color_full (self : RetroColorPalette) (r g b : Z) :
  (quantize r, quantize g, quantize b) ∉ colors self ->
  ~ (length (colors self) < 16)%nat ->
  add_color pow_half self r g b
    = (Some (find_closest_color pow_half (colors self) (quantize r) (quantize g) (quantize b)),
       self).
Proof.
  intros Hin Hlen. unfold add_color.
  rewrite bool_decide_eq_true_2 by done. by rewrite bool_decide_eq_false_2.
Qed.

(** Every call extends the stored list at its end, by at most the quantized color. *)
Lemma add_color_extends (self : RetroColorPalette) (r g b : Z) :
  palette_name (snd (add_color pow_half self r g b)) = palette_name self /\
  (colors (snd (add_color pow_half self r g b)) = colors self \/
   ((quantize r, quantize g, quantize b) ∉ colors self) /\
   (length (colors self) < 16)%nat /\
   colors (snd (add_color pow_half self r g b))
     = colors self ++ [(quantize r, quantize g, quantize b)]).
Proof.
  destruct (decide ((quantize r, quantize g, quantize b) ∈ colors self)) as [Hin|Hin].
  { rewrite add_color_known by done. auto. }
  destruct (decide (length (colors self) < 16)%nat) as [Hlen|Hlen].
  - rewrite add_color_append by done. simpl. auto.
  - rewrite add_color_full by done. auto.
Qed.

Lemma add_colors_snoc (self : RetroColorPalette) (calls : list (Z * Z * Z)) (r g b : Z) :
  add_colors pow_half self (calls ++ [(r, g, b)])
    = snd (add_color pow_half (add_colors pow_half self calls) r g b).
Proof. unfold add_colors. by rewrite fold_left_app. Qed.

Lemma add_colors_prefix (self : RetroColorPalette) (calls : list (Z * Z * Z)) :
  colors self `prefix_of` colors (add_colors pow_half self calls).
Proof.
  induction calls as [|[[r g] b] calls IH] using rev_ind; [done|].
  rewrite add_colors_snoc.
  destruct (add_color_extends (add_colors pow_half self calls) r g b) as [_ [-> | (_ & _ & ->)]];
    [done|].
  by apply prefix_app_r.
Qed.

Lemma add_color_ok (self : RetroColorPalette) (r g b : Z) :
  palette_ok self -> palette_ok (snd (add_color pow_half self r g b)).
Proof.
  intros (Hlen & Hnd & Hq).
  destruct (add_color_extends self r g b) as [_ [Heq | (Hin & Hlt & Heq)]];
    unfold palette_ok; rewrite Heq; [done|].
  split_and!.
  - rewrite length_app. simpl. lia.
  - apply list.NoDup_app. split_and!; [done| |apply NoDup_singleton].
    intros x Hx ->%list_elem_of_singleton. done.
  - apply Forall_app. split; [done|]. apply Forall_singleton.
    split_and!; apply quantize_low_bits.
Qed.

Lemma add_colors_ok (name : string) (calls : list (Z * Z * Z)) :
  palette_ok (add_colors pow_half (new_palette name) calls).
Proof.
  induction calls as [|[[r g] b] calls IH] using rev_ind.
  - split_and!; simpl; [lia|apply NoDup_nil_2|done].
  - rewrite add_colors_snoc. by apply add_color_ok.
Qed.

Lemma add_color_index_lt (self : RetroColorPalette) (r g b : Z) :
  exists i, fst (add_color pow_half self r g b) = Some i /\
            (i < length (colors (snd (add_color pow_half self r g b))))%nat.
Proof.
  destruct (decide ((quantize r, quantize g, quantize b) ∈ colors self)) as [Hin|Hin].
  { rewrite add_color_known by done. simpl.
    destruct (index_Some _ _ Hin) as (i & Hi & Hl & _).
    exists i. split; [done|]. by eapply lookup_lt_Some. }
  destruct (decide (length (colors self) < 16)%nat) as [Hlen|Hlen].
  - rewrite add_color_append by done. simpl. eexists; split; [done|].
    rewrite length_app. simpl. lia.
  - rewrite add_color_full by done. simpl. eexists; split; [done|].
    apply find_closest_color_lt. intros Hnil. rewrite Hnil in Hlen. simpl in Hlen. lia.
Qed.


(** C2: after any sequence of calls on a fresh palette the stored list has
    at most 16 entries, no duplicates and only quantized channels; a further
    call never shortens it, and leaves the palette as it is once 16 entries
    are stored. *)
Theorem palette_invariant (name : string) (calls : list (Z * Z * Z)) :
  (length (colors (add_colors pow_half (new_palette name) calls)) <= 16)%nat /\
  NoDup (colors (add_colors pow_half (new_palette name) calls)) /\
  Forall (fun '(r, g, b) => Z.land r 7 = 0 /\ Z.land g 7 = 0 /\ Z.land b 7 = 0)
    (colors (add_colors pow_half (new_palette name) calls)) /\
  forall r g b,
    (length (colors (add_colors pow_half (new_palette name) calls))
     <= length (colors (add_colors pow_half (new_palette name) (calls ++ [(r, g, b)]))))%nat /\
    (length (colors (add_colors pow_half (new_palette name) calls)) = 16%nat ->
     add_colors pow_half (new_palette name) (calls ++ [(r, g, b)])
       = add_colors pow_half (new_palette name) calls).
Proof.
  destruct (add_colors_ok name calls) as (Hlen & Hnd & Hq).
  split_and!; [done..|]. intros r g b. rewrite add_colors_snoc.
  set (p := add_colors pow_half (new_palette name) calls) in *.
  destruct (add_color_extends p r g b) as [Hname [Heq | (_ & Hlt & Heq)]].
  - split; [by rewrite Heq|]. intros _.
    destruct (snd (add_color pow_half p r g b)), p; simpl in *. by subst.
  - rewrite Heq, length_app. simpl. split; lia.
Qed.

(** C3: once a call has stored (or found) the quantized triple of [c], any
    later call with a color of the same quantized triple returns the index
    of that first call and leaves the palette as it is. *)
Theorem add_color_idempotent (self p1 : RetroColorPalette) (r g b r' g' b' : Z)
    (i : nat) (calls : list (Z * Z * Z)) :
  add_color pow_half self r g b = (Some i, p1) ->
  (quantize r, quantize g, quantize b) ∈ colors p1 ->
  (quantize r', quantize g', quantize b') = (quantize r, quantize g, quantize b) ->
  add_color pow_half (add_colors pow_half p1 calls) r' g' b'
    = (Some i, add_colors pow_half p1 calls).
Proof.
  intros Hfirst Hstored Hsame. injection Hsame as Hr Hg Hb.
  assert (Hidx : index (quantize r, quantize g, quantize b) (colors p1) = Some i).
  { destruct (decide ((quantize r, quantize g, quantize b) ∈ colors self)) as [Hin|Hin].
    { rewrite add_color_known in Hfirst by done. by injection Hfirst as Hi <-. }
    destruct (decide (length (colors self) < 16)%nat) as [Hlen|Hlen].
    - rewrite add_color_append in Hfirst by done. injection Hfirst as <- <-.
      cbn [colors]. by apply index_snoc_fresh.
    - rewrite add_color_full in Hfirst by done. injection Hfirst as _ <-. done. }
  destruct (add_colors_prefix p1 calls) as [ext Hext].
  rewrite add_color_known; rewrite Hr, Hg, Hb, Hext.
  - by rewrite index_app_l, Hidx.
  - apply elem_of_app. by left.
Qed.

(** C10: after any sequence of calls on a fresh palette, the index that
    [add_color] returns is a position of the stored list as the call leaves
    it, so [colors[index]] succeeds; the search alone, on an empty list,
    returns 0, where nothing is stored. *)
Theorem add_color_index_valid (name : string) (calls : list (Z * Z * Z)) (r g b : Z) :
  (exists i c,
     fst (add_color pow_half (add_colors pow_half (new_palette name) calls) r g b) = Some i /\
     (i < length (colors (snd (add_color pow_half
                                 (add_colors pow_half (new_palette name) calls) r g b))))%nat /\
     getitem (colors (snd (add_color pow_half
                             (add_colors pow_half (new_palette name) calls) r g b)))
             (Z.of_nat i) = Some c) /\
  find_closest_color pow_half [] r g b = 0%nat /\
  getitem (@nil color) 0 = None.
Proof.
  split; [|done].
  destruct (add_color_index_lt (add_colors pow_half (new_palette name) calls) r g b)
    as (i & Hi & Hlt).
  destruct (lookup_lt_is_Some_2 _ _ Hlt) as [c Hc].
  exists i, c. split_and!; [done..|]. by rewrite getitem_of_nat.
Qed.
End PaletteClaims.

(** ** Frames: one write *)

Lemma guard_true (f : frame) (x y : Z) :
  in_bounds f x y ->
  (0 <=? x) && (x <? Z.of_nat (shape1 f)) && ((0 <=? y) && (y <? Z.of_nat (shape0 f))) = true.
Proof.
  intros [[? ?] [? ?]]. rewrite !andb_true_iff, !Z.leb_le, !Z.ltb_lt. done.
Qed.

Lemma guard_false (f : frame) (x y : Z) :
  ~ in_bounds f x y ->
  (0 <=? x) && (x <? Z.of_nat (shape1 f)) && ((0 <=? y) && (y <? Z.of_nat (shape0 f))) = false.
Proof.
  intros Hn. apply not_true_is_false. intros H. apply Hn.
  rewrite !andb_true_iff, !Z.leb_le, !Z.ltb_lt in H. unfold in_bounds. lia.
Qed.

Lemma set_pixel_safe_write (f : frame) (palette : RetroColorPalette) (x y r g b a : Z) :
  set_pixel_safe f palette x y r g b a = write f x y (u8 r, u8 g, u8 b, u8 a).
Proof. reflexivity. Qed.

Lemma write_shape (f : frame) (x y : Z) (v : pixel) :
  shape0 (write f x y v) = shape0 f /\ shape1 (write f x y v) = shape1 f.
Proof. unfold write. by destruct (_ && _). Qed.

Lemma write_wf (f : frame) (x y : Z) (v : pixel) : frame_wf f -> frame_wf (write f x y v).
Proof.
  intros [Hlen Hrows]. unfold write. destruct (_ && _); [|done].
  split; simpl.
  - by rewrite length_alter.
  - apply Forall_alter; [done|]. intros row _ Hrow.
    by rewrite length_insert.
Qed.


Lemma pixel_at_out_of_bounds (f : frame) (x y : Z) :
  frame_wf f -> ~ in_bounds f x y -> pixel_at f x y = None.
Proof.
  intros [Hlen Hrows] Hn. unfold pixel_at.
  destruct (Z.leb_spec 0 x); [|done]. destruct (Z.leb_spec 0 y); [|done]. simpl.
  destruct (rows f !! Z.to_nat y) as [row|] eqn:Hrow; [|done]. simpl.
  apply lookup_ge_None. pose proof (lookup_lt_Some _ _ _ Hrow).
  eapply Forall_lookup_1 in Hrows; [|done]. simpl in Hrows.
  unfold in_bounds in Hn. lia.
Qed.

(** A write in bounds changes this pixel and no other; out of bounds it
    changes nothing. *)
Lemma pixel_at_write (f : frame) (x y : Z) (v : pixel) (x' y' : Z) :
  frame_wf f ->
  pixel_at (write f x y v) x' y'
    = if bool_decide (x' = x /\ y' = y /\ in_bounds f x y) then Some v else pixel_at f x' y'.
Proof.
  intros Hwf. case_bool_decide as Hc.
  - destruct Hc as (-> & -> & Hin). unfold write. rewrite guard_true by done.
    destruct Hwf as [Hlen Hrows]. destruct Hin as [[? ?] [? ?]]. unfold pixel_at.
    replace ((0 <=? x) && (0 <=? y)) with true
      by (symmetry; apply andb_true_iff; split; apply Z.leb_le; lia).
    simpl. rewrite list_lookup_alter_eq.
    destruct (lookup_lt_is_Some_2 (rows f) (Z.to_nat y)) as [row Hrow]; [lia|].
    rewrite Hrow. simpl. apply list_lookup_insert_eq.
    eapply Forall_lookup_1 in Hrows; [|done]. simpl in Hrows. lia.
  - unfold write. destruct (decide (in_bounds f x y)) as [Hin|Hin].
    + rewrite guard_true by done. destruct Hin as [[? ?] [? ?]]. unfold pixel_at.
      destruct (Z.leb_spec 0 x'); [|done]. destruct (Z.leb_spec 0 y'); [|done]. simpl.
      destruct (decide (Z.to_nat y = Z.to_nat y')) as [Hy|Hy].
      * rewrite <- Hy, list_lookup_alter_eq.
        destruct (rows f !! Z.to_nat y) as [row|]; [|done]. simpl.
        apply list_lookup_insert_ne. intros Hx. apply Hc. unfold in_bounds. lia.
      * by rewrite list_lookup_alter_ne.
    + by rewrite guard_false.
Qed.

(** C4: a write at coordinates outside [0, shape1) x [0, shape0) returns the
    frame as it was, and [set_pixel_safe] has no raising path; a write inside
    stores the pixel at (x, y), keeps the shape and leaves every other pixel
    as it was. *)
Theorem set_pixel_safe_bounds (f : frame) (palette : RetroColorPalette) (x y r g b a : Z) :
  ((x < 0 \/ Z.of_nat (shape1 f) <= x \/ y < 0 \/ Z.of_nat (shape0 f) <= y) ->
   set_pixel_safe f palette x y r g b a = f) /\
  (frame_wf f -> 0 <= x < Z.of_nat (shape1 f) -> 0 <= y < Z.of_nat (shape0 f) ->
   shape0 (set_pixel_safe f palette x y r g b a) = shape0 f /\
   shape1 (set_pixel_safe f palette x y r g b a) = shape1 f /\
   pixel_at (set_pixel_safe f palette x y r g b a) x y = Some (u8 r, u8 g, u8 b, u8 a) /\
   forall x' y', (x', y') <> (x, y) ->
     pixel_at (set_pixel_safe f palette x y r g b a) x' y' = pixel_at f x' y').
Proof.
  rewrite set_pixel_safe_write. split.
  - intros Hout. unfold write. rewrite guard_false; [done|]. unfold in_bounds. lia.
  - intros Hwf Hx Hy. destruct (write_shape f x y (u8 r, u8 g, u8 b, u8 a)) as [-> ->].
    split_and!; [done..| |].
    + rewrite pixel_at_write by done. by rewrite bool_decide_eq_true_2.
    + intros x' y' Hne. rewrite pixel_at_write by done.
      rewrite bool_decide_eq_false_2; [done|]. intros (-> & -> & _). done.
Qed.

(** ** Frames: loops of writes *)

Lemma elem_of_grid (ys xs : list Z) (x y : Z) : (x, y) ∈ grid ys xs <-> x ∈ xs /\ y ∈ ys.
Proof.
  unfold grid. rewrite list_elem_of_bind. split.
  - intros (y' & Hin & Hy'). apply list_elem_of_fmap in Hin as (x' & Heq & Hx').
    by injection Heq as -> ->.
  - intros [Hx Hy]. exists y. split; [|done]. apply list_elem_of_fmap. by exists x.
Qed.

Lemma stroke_shape sel f p :
  shape0 (stroke sel f p) = shape0 f /\ shape1 (stroke sel f p) = shape1 f.
Proof. unfold stroke. destruct (sel _ _); [apply write_shape|done]. Qed.

Lemma stroke_wf sel f p : frame_wf f -> frame_wf (stroke sel f p).
Proof. unfold stroke. destruct (sel _ _); [apply write_wf|done]. Qed.

Lemma strokes_shape sel ps f :
  shape0 (strokes sel ps f) = shape0 f /\ shape1 (strokes sel ps f) = shape1 f.
Proof.
  revert f. induction ps as [|p ps IH]; intros f; [done|].
  unfold strokes in *. simpl. destruct (IH (stroke sel f p)) as [-> ->]. apply stroke_shape.
Qed.

Lemma strokes_wf sel ps f : frame_wf f -> frame_wf (strokes sel ps f).
Proof.
  revert f. induction ps as [|p ps IH]; intros f Hwf; [done|].
  unfold strokes in *. simpl. by apply IH, stroke_wf.
Qed.

(** After the loop a pixel holds what the loop stores there, when the loop
    visits it and it lies in the frame, and its old value otherwise. *)
Lemma pixel_at_strokes sel ps f x y :
  frame_wf f ->
  pixel_at (strokes sel ps f) x y
    = match sel x y with
      | Some v => if bool_decide ((x, y) ∈ ps /\ in_bounds f x y) then Some v else pixel_at f x y
      | None => pixel_at f x y
      end.
Proof.
  revert f. induction ps as [|[px py] ps IH]; intros f Hwf.
  - unfold strokes. cbn [fold_left]. destruct (sel x y); [|done].
    rewrite bool_decide_eq_false_2; [done|].
    intros [H _]. by apply elem_of_nil in H.
  - unfold strokes in *. cbn [fold_left]. rewrite IH by by apply stroke_wf.
    assert (Hb : in_bounds (stroke sel f (px, py)) x y <-> in_bounds f x y).
    { unfold in_bounds. by destruct (stroke_shape sel f (px, py)) as [-> ->]. }
    assert (Hst : pixel_at (stroke sel f (px, py)) x y
                  = match sel px py with
                    | Some v => if bool_decide (x = px /\ y = py /\ in_bounds f px py)
                                then Some v else pixel_at f x y
                    | None => pixel_at f x y
                    end).
    { unfold stroke. simpl. destruct (sel px py); [by apply pixel_at_write|done]. }
    rewrite Hst. clear Hst IH.
    rewrite (bool_decide_ext _ ((x, y) ∈ ps /\ in_bounds f x y)) by (by rewrite Hb).
    destruct (sel x y) as [v|] eqn:Hsel.
    + destruct (decide ((x, y) ∈ ps /\ in_bounds f x y)) as [[H1 H2]|H1].
      { rewrite !bool_decide_eq_true_2; [done| |done]. split; [by right|done]. }
      rewrite (bool_decide_eq_false_2 _ H1).
      destruct (decide (x = px /\ y = py /\ in_bounds f px py)) as [(-> & -> & H2)|H2].
      * rewrite Hsel, !bool_decide_eq_true_2; [done| |done]. split; [by left|done].
      * rewrite (bool_decide_eq_false_2 ((x, y) ∈ (px, py) :: ps /\ _)).
        -- destruct (sel px py); [|done]. by rewrite bool_decide_eq_false_2.
        -- intros [H3 H4]. apply elem_of_cons in H3 as [H3|H3].
           ++ injection H3 as -> ->. by apply H2.
           ++ by apply H1.
    + destruct (sel px py) as [v'|] eqn:Hsel'; [|done].
      rewrite bool_decide_eq_false_2; [done|]. intros (-> & -> & _). congruence.
Qed.

(** A nested loop whose body stores [sel] and whose inner range depends on
    the frame's shape only is the flat loop over its grid. *)
Lemma for_in_grid (sel : Z -> Z -> option pixel) (body : Z -> Z -> frame -> option frame)
    (ys xs : list Z) (xs_of : frame -> list Z) (f0 f : frame) :
  (forall f', shape0 f' = shape0 f0 -> shape1 f' = shape1 f0 -> xs_of f' = xs) ->
  (forall x y f', x ∈ xs -> y ∈ ys -> body x y f' = Some (stroke sel f' (x, y))) ->
  shape0 f = shape0 f0 -> shape1 f = shape1 f0 ->
  for_in ys (fun y f' => for_in (xs_of f') (fun x f'' => body x y f'') f') f
    = Some (strokes sel (grid ys xs) f).
Proof.
  intros Hxs Hbody. revert f. induction ys as [|y ys IH]; intros f H0 H1; [done|].
  simpl.
  assert (Hrow : forall l g, (forall x, x ∈ l -> x ∈ xs) ->
            for_in l (fun x f'' => body x y f'') g = Some (strokes sel ((fun x => (x, y)) <$> l) g)).
  { induction l as [|x l IHl]; intros g Hl; [done|]. simpl.
    rewrite Hbody; [|apply Hl; by left|by left].
    rewrite IHl; [done|]. intros x' Hx'. apply Hl. by right. }
  rewrite Hxs by done. rewrite Hrow by done.
  unfold grid. cbn [mbind list_bind]. unfold strokes at 2. rewrite fold_left_app.
  fold (strokes sel ((fun x => (x, y)) <$> xs) f).
  rewrite IH.
  - done.
  - intros x y' f' Hx Hy'. apply Hbody; [done | by right].
  - by destruct (strokes_shape sel ((fun x => (x, y)) <$> xs) f) as [-> _].
  - by destruct (strokes_shape sel ((fun x => (x, y)) <$> xs) f) as [_ ->].
Qed.

(** ** Shaded primitives *)

Lemma paint_stroke (f : frame) (palette : RetroColorPalette) (x y idx : Z) (c : color) :
  getitem (colors palette) idx = Some c ->
  paint f palette x y idx = Some (write f x y (opaque c)).
Proof. intros H. unfold paint. rewrite H. by destruct c as [[r g] b]. Qed.

Lemma draw_rect_strokes (f : frame) (palette : RetroColorPalette)
    (x y width height base_color shadow_color highlight_color : Z) (cb cs ch : color) :
  getitem (colors palette) base_color = Some cb ->
  getitem (colors palette) shadow_color = Some cs ->
  getitem (colors palette) highlight_color = Some ch ->
  draw_rect_with_shading f palette x y width height base_color shadow_color highlight_color
    = Some (strokes
        (fun px py =>
           opaque <$> getitem (colors palette)
             (rect_idx x y width height base_color shadow_color highlight_color px py))
        (grid (py_range y (Z.min (Z.of_nat (shape0 f)) (y + height)))
              (py_range x (Z.min (Z.of_nat (shape1 f)) (x + width)))) f).
Proof.
  intros Hb Hs Hh. unfold draw_rect_with_shading.
  apply (for_in_grid _ _ _ _ (fun f' => py_range x (Z.min (Z.of_nat (shape1 f')) (x + width))) f);
    [|intros px py f' _ _|done..].
  - intros f' _ H1. by rewrite H1.
  - fold (rect_idx x y width height base_color shadow_color highlight_color px py).
    unfold stroke. cbn [fst snd].
    assert (exists c, getitem (colors palette)
              (rect_idx x y width height base_color shadow_color highlight_color px py) = Some c)
      as [c Hc].
    { unfold rect_idx. destruct (_ || _); [eauto|]. destruct (_ || _); eauto. }
    rewrite Hc. simpl. by apply paint_stroke.
Qed.

(** C7: the rectangle paints every pixel of the frame that it covers: the
    highlight color on the top row and the left column, the shadow color on
    what remains of the bottom row and the right column, the base color
    inside; it leaves the other pixels as they were. *)
Theorem draw_rect_with_shading_bevel (f : frame) (palette : RetroColorPalette)
    (x y width height base_color shadow_color highlight_color : Z) (cb cs ch : color) :
  frame_wf f ->
  getitem (colors palette) base_color = Some cb ->
  getitem (colors palette) shadow_color = Some cs ->
  getitem (colors palette) highlight_color = Some ch ->
  exists f',
    draw_rect_with_shading f palette x y width height base_color shadow_color highlight_color
      = Some f' /\
    shape0 f' = shape0 f /\ shape1 f' = shape1 f /\
    forall px py, 0 <= px < Z.of_nat (shape1 f) -> 0 <= py < Z.of_nat (shape0 f) ->
      (x <= px < x + width -> y <= py < y + height ->
         (px = x \/ py = y -> pixel_at f' px py = Some (opaque ch)) /\
         (px <> x -> py <> y -> px = x + width - 1 \/ py = y + height - 1 ->
          pixel_at f' px py = Some (opaque cs)) /\
         (px <> x -> py <> y -> px <> x + width - 1 -> py <> y + height - 1 ->
          pixel_at f' px py = Some (opaque cb))) /\
      (~ (x <= px < x + width /\ y <= py < y + height) ->
         pixel_at f' px py = pixel_at f px py).
Proof.
  intros Hwf Hb Hs Hh. eexists. split; [by eapply draw_rect_strokes|].
  match goal with |- context [strokes ?s ?g f] => set (sel := s); set (ps := g) end.
  destruct (strokes_shape sel ps f) as [-> ->]. split_and!; [done..|].
  intros px py Hpx Hpy.
  assert (Hgrid : (px, py) ∈ ps <-> x <= px < x + width /\ y <= py < y + height).
  { unfold ps. rewrite elem_of_grid, !elem_of_py_range. lia. }
  rewrite pixel_at_strokes by done. split.
  - intros Hx Hy.
    assert (Hin : (px, py) ∈ ps /\ in_bounds f px py) by (by split; [apply Hgrid|]).
    unfold sel, rect_idx. split_and!.
    + intros Hedge.
      replace ((px =? x) || (py =? y)) with true
        by (symmetry; apply orb_true_iff; rewrite !Z.eqb_eq; done).
      rewrite Hh. simpl. by rewrite bool_decide_eq_true_2.
    + intros H1 H2 Hedge.
      replace ((px =? x) || (py =? y)) with false
        by (symmetry; apply orb_false_iff; rewrite !Z.eqb_neq; done).
      replace ((px =? x + width - 1) || (py =? y + height - 1)) with true
        by (symmetry; apply orb_true_iff; rewrite !Z.eqb_eq; done).
      rewrite Hs. simpl. by rewrite bool_decide_eq_true_2.
    + intros H1 H2 H3 H4.
      replace ((px =? x) || (py =? y)) with false
        by (symmetry; apply orb_false_iff; rewrite !Z.eqb_neq; done).
      replace ((px =? x + width - 1) || (py =? y + height - 1)) with false
        by (symmetry; apply orb_false_iff; rewrite !Z.eqb_neq; done).
      rewrite Hb. simpl. by rewrite bool_decide_eq_true_2.
  - intros Hout. destruct (sel px py); [|done].
    rewrite bool_decide_eq_false_2; [done|]. intros [H _]. by apply Hout, Hgrid.
Qed.







Lemma draw_circle_strokes (f : frame) (palette : RetroColorPalette)
    (cx cy radius base_color shadow_color highlight_color : Z) (cb cs ch : color) :
  0 < radius ->
  getitem (colors palette) base_color = Some cb ->
  getitem (colors palette) shadow_color = Some cs ->
  getitem (colors palette) highlight_color = Some ch ->
  draw_circle_with_shading f palette cx cy radius base_color shadow_color highlight_color
    = Some (strokes
        (fun x y =>
           if (x - cx) * (x - cx) + (y - cy) * (y - cy) <=? radius * radius
           then opaque <$> getitem (colors palette)
                  (circle_idx radius base_color shadow_color highlight_color (x - cx) (y - cy))
           else None)
        (grid (py_range (Z.max 0 (cy - radius)) (Z.min (Z.of_nat (shape0 f)) (cy + radius + 1)))
              (py_range (Z.max 0 (cx - radius)) (Z.min (Z.of_nat (shape1 f)) (cx + radius + 1))))
        f).
Proof.
  intros Hr Hb Hs Hh. unfold draw_circle_with_shading.
  apply (for_in_grid _ _ _ _
           (fun f' => py_range (Z.max 0 (cx - radius))
                        (Z.min (Z.of_nat (shape1 f')) (cx + radius + 1))) f);
    [|intros x y f' _ _|done..].
  - intros f' _ H1. by rewrite H1.
  - unfold stroke. cbn [fst snd]. cbv zeta.
    destruct (Z.leb_spec ((x - cx) * (x - cx) + (y - cy) * (y - cy)) (radius * radius))
      as [Hin|Hout]; [|done].
    unfold true_div. replace (radius * 2 =? 0) with false by (symmetry; apply Z.eqb_neq; lia).
    cbn [mbind option_bind].
    fold (light_factor (x - cx) (y - cy) radius).
    fold (circle_idx radius base_color shadow_color highlight_color (x - cx) (y - cy)).
    assert (exists c, getitem (colors palette)
              (circle_idx radius base_color shadow_color highlight_color (x - cx) (y - cy))
              = Some c) as [c Hc].
    { unfold circle_idx. destruct (PrimFloat.ltb _ _); [eauto|].
      destruct (PrimFloat.ltb _ _); eauto. }
    rewrite Hc. simpl. by apply paint_stroke.
Qed.


(** ** The brick-wall tile *)

Lemma draw_brick_wall_strokes (f : frame) (palette : RetroColorPalette)
    (base dark light : Z) (cb cd cl : color) :
  getitem (colors palette) base = Some cb ->
  getitem (colors palette) dark = Some cd ->
  getitem (colors palette) light = Some cl ->
  draw_brick_wall f palette base dark light
    = Some (strokes (fun x y => Some (opaque (tone_color cb cd cl (brick_tone x y))))
              (grid (py_range 0 16) (py_range 0 16)) f).
Proof.
  intros Hb Hd Hl. unfold draw_brick_wall. rewrite Hb, Hd, Hl. cbn [mbind option_bind].
  apply (for_in_grid _ _ _ _ (fun _ => py_range 0 16) f); [done| |done..].
  intros x y f' _ _. unfold stroke. cbn [fst snd].
  destruct (brick_tone x y); cbn [tone_color].
  - by destruct cd as [[r g] b].
  - by destruct cl as [[r g] b].
  - by destruct cb as [[r g] b].
Qed.

(** C9: on the 16 x 16 tile the dark branch is taken exactly on the mortar
    lines, [y mod 4 = 3], or an even brick row with [x mod 8 = 7], or an odd
    brick row with [x mod 8 = 3]; off the mortar the light branch is taken
    exactly where [x mod 8 = 0] on an even row or [x mod 8 = 4] on an odd row;
    the base branch is taken elsewhere; and the pixel holds the color of the
    branch taken. *)
Theorem draw_brick_wall_pattern (f : frame) (palette : RetroColorPalette)
    (base dark light : Z) (cb cd cl : color) :
  frame_wf f ->
  getitem (colors palette) base = Some cb ->
  getitem (colors palette) dark = Some cd ->
  getitem (colors palette) light = Some cl ->
  exists f',
    draw_brick_wall f palette base dark light = Some f' /\
    forall x y, 0 <= x < 16 -> 0 <= y < 16 ->
      x < Z.of_nat (shape1 f) -> y < Z.of_nat (shape0 f) ->
      (brick_tone x y = Dark <->
         y mod 4 = 3 \/ ((y / 4) mod 2 = 0 /\ x mod 8 = 7) \/ ((y / 4) mod 2 = 1 /\ x mod 8 = 3)) /\
      (brick_tone x y = Light <->
         ~ (y mod 4 = 3 \/ ((y / 4) mod 2 = 0 /\ x mod 8 = 7)
            \/ ((y / 4) mod 2 = 1 /\ x mod 8 = 3)) /\
         ((x mod 8 = 0 /\ (y / 4) mod 2 = 0) \/ (x mod 8 = 4 /\ (y / 4) mod 2 = 1))) /\
      (brick_tone x y = Base <->
         ~ (y mod 4 = 3 \/ ((y / 4) mod 2 = 0 /\ x mod 8 = 7)
            \/ ((y / 4) mod 2 = 1 /\ x mod 8 = 3)) /\
         ~ ((x mod 8 = 0 /\ (y / 4) mod 2 = 0) \/ (x mod 8 = 4 /\ (y / 4) mod 2 = 1))) /\
      pixel_at f' x y = Some (opaque (tone_color cb cd cl (brick_tone x y))).
Proof.
  intros Hwf Hb Hd Hl. eexists. split; [by eapply draw_brick_wall_strokes|].
  intros x y Hx Hy Hx' Hy'.
  assert (Htone :
    (brick_tone x y = Dark <->
       y mod 4 = 3 \/ ((y / 4) mod 2 = 0 /\ x mod 8 = 7) \/ ((y / 4) mod 2 = 1 /\ x mod 8 = 3)) /\
    (brick_tone x y = Light <->
       ~ (y mod 4 = 3 \/ ((y / 4) mod 2 = 0 /\ x mod 8 = 7)
          \/ ((y / 4) mod 2 = 1 /\ x mod 8 = 3)) /\
       ((x mod 8 = 0 /\ (y / 4) mod 2 = 0) \/ (x mod 8 = 4 /\ (y / 4) mod 2 = 1))) /\
    (brick_tone x y = Base <->
       ~ (y mod 4 = 3 \/ ((y / 4) mod 2 = 0 /\ x mod 8 = 7)
          \/ ((y / 4) mod 2 = 1 /\ x mod 8 = 3)) /\
       ~ ((x mod 8 = 0 /\ (y / 4) mod 2 = 0) \/ (x mod 8 = 4 /\ (y / 4) mod 2 = 1)))).
  { unfold brick_tone.
    generalize (y mod 4) ((y / 4) mod 2) (x mod 8). intros a b c.
    set (m := (a =? 3) || (b =? 0) && (c =? 7) || (b =? 1) && (c =? 3)).
    set (l := (c =? 0) && (b =? 0) || (c =? 4) && (b =? 1)).
    assert (Hmt : m = true <-> a = 3 \/ (b = 0 /\ c = 7) \/ (b = 1 /\ c = 3)).
    { unfold m. rewrite !orb_true_iff, !andb_true_iff, !Z.eqb_eq. tauto. }
    assert (Hlt : l = true <-> (c = 0 /\ b = 0) \/ (c = 4 /\ b = 1)).
    { unfold l. rewrite !orb_true_iff, !andb_true_iff, !Z.eqb_eq. tauto. }
    rewrite <- Hmt, <- Hlt. clearbody m l. clear Hmt Hlt.
    destruct m, l; split_and!; split; try discriminate; try tauto;
      intros; split; congruence. }
  destruct Htone as (H1 & H2 & H3). split_and!; [done..|].
  rewrite pixel_at_strokes by done. rewrite bool_decide_eq_true_2; [done|].
  split; [|by unfold in_bounds; lia].
  rewrite elem_of_grid, !elem_of_py_range. lia.
Qed.

(** ** The sprite sheet *)







(** ** The walking cycle *)

Lemma for_in_preserves {A S} (P : S -> Prop) (l : list A) (body : A -> S -> option S) :
  (forall a s s', P s -> body a s = Some s' -> P s') ->
  forall s s', P s -> for_in l body s = Some s' -> P s'.
Proof.
  intros Hbody. induction l as [|a l IH]; intros s s' Hs H; simpl in H.
  - by injection H as <-.
  - destruct (body a s) as [s1|] eqn:E; [|done]. eapply IH; [|done]. by eapply Hbody.
Qed.

Lemma write_same_shape f0 f x y v : same_shape f0 f -> same_shape f0 (write f x y v).
Proof.
  intros (Hwf & H0 & H1). destruct (write_shape f x y v) as [E0 E1].
  split_and!; [by apply write_wf|congruence..].
Qed.

Lemma paint_same_shape f0 f palette x y idx f' :
  same_shape f0 f -> paint f palette x y idx = Some f' -> same_shape f0 f'.
Proof.
  intros Hs. unfold paint. destruct (getitem _ _) as [[[r g] b]|]; [|done].
  cbn [mbind option_bind]. intros [= <-]. rewrite set_pixel_safe_write.
  by apply write_same_shape.
Qed.

Lemma draw_circle_same_shape f0 f palette cx cy radius cb cs ch f' :
  same_shape f0 f ->
  draw_circle_with_shading f palette cx cy radius cb cs ch = Some f' -> same_shape f0 f'.
Proof.
  intros Hs. unfold draw_circle_with_shading.
  apply for_in_preserves; [|done]. intros y g g' Hg.
  apply for_in_preserves; [|done]. intros x h h' Hh. cbv zeta.
  destruct (_ <=? _); [|by intros [= <-]].
  destruct (true_div _ _); [|done]. cbn [mbind option_bind]. by apply paint_same_shape.
Qed.

Lemma draw_rect_same_shape f0 f palette x y w h cb cs ch f' :
  same_shape f0 f ->
  draw_rect_with_shading f palette x y w h cb cs ch = Some f' -> same_shape f0 f'.
Proof.
  intros Hs. unfold draw_rect_with_shading.
  apply for_in_preserves; [|done]. intros py g g' Hg.
  apply for_in_preserves; [|done]. intros px k k' Hk. by apply paint_same_shape.
Qed.

Lemma draw_hair_front_same_shape f0 f palette cx cy direction cb cs ch f' :
  same_shape f0 f ->
  draw_hair_front f palette cx cy direction cb cs ch = Some f' -> same_shape f0 f'.
Proof.
  intros Hs. unfold draw_hair_front.
  apply for_in_preserves; [|done]. intros [px py] g g' Hg.
  destruct (_ && _); [by intros [= <-]|]. destruct (_ && _); [by intros [= <-]|].
  by apply paint_same_shape.
Qed.

Lemma draw_hair_back_same_shape f0 f palette cx cy cb cs ch f' :
  same_shape f0 f ->
  draw_hair_back f palette cx cy cb cs ch = Some f' -> same_shape f0 f'.
Proof.
  intros Hs. unfold draw_hair_back.
  apply for_in_preserves; [|done]. intros [px py] g g' Hg. by apply paint_same_shape.
Qed.



Section WalkingCycle.
Variable pow_half : float -> float.

End WalkingCycle.

(** * Instances *)


(** The sample palette is full; a seventeenth call leaves it as it is. *)
Lemma palette_invariant_witness :
  length (colors sample_palette) = 16%nat /\
  add_colors PrimFloat.sqrt (new_palette "sample") (sample_calls ++ [(250, 10, 10)])
    = sample_palette.
Proof.
  destruct (palette_invariant PrimFloat.sqrt "sample" sample_calls) as (_ & _ & _ & H).
  destruct (H 250 10 10) as [_ Hfrozen].
  split; [vm_compute; reflexivity|]. apply Hfrozen. vm_compute. reflexivity.
Defined.

(** The skin tone goes to entry 0 of a fresh palette; after a further call,
    a color of the same quantized triple finds entry 0 again. *)
Lemma add_color_idempotent_witness :
  add_color PrimFloat.sqrt
    (add_colors PrimFloat.sqrt (Palette "p" [(248, 216, 176)]) [(1, 2, 3)]) 249 217 180
  = (Some 0%nat, add_colors PrimFloat.sqrt (Palette "p" [(248, 216, 176)]) [(1, 2, 3)]).
Proof.
  apply (add_color_idempotent PrimFloat.sqrt (new_palette "p") (Palette "p" [(248, 216, 176)])
           255 220 177 249 217 180 0 [(1, 2, 3)]).
  - vm_compute. reflexivity.
  - apply (bool_decide_unpack _). vm_compute. exact I.
  - vm_compute. reflexivity.
Defined.

(** A write at column 16 of a 16 x 16 frame changes nothing; a write at
    (3, 4) is read back. *)
Lemma set_pixel_safe_bounds_witness :
  set_pixel_safe (zeros 16 16) sample_palette 16 3 8 16 24 255 = zeros 16 16 /\
  pixel_at (set_pixel_safe (zeros 16 16) sample_palette 3 4 8 16 24 255) 3 4
    = Some (u8 8, u8 16, u8 24, u8 255).
Proof.
  split.
  - apply (proj1 (set_pixel_safe_bounds (zeros 16 16) sample_palette 16 3 8 16 24 255)).
    simpl. lia.
  - apply (proj2 (set_pixel_safe_bounds (zeros 16 16) sample_palette 3 4 8 16 24 255)).
    + split; [reflexivity|]. vm_compute. repeat constructor.
    + simpl. lia.
    + simpl. lia.
Defined.



(** The jacket, 4 x 5 at (6, 6): highlight on the corner, shadow on the right
    column, base inside. *)
Lemma draw_rect_with_shading_bevel_witness :
  exists f',
    draw_rect_with_shading (zeros 16 16) sample_palette 6 6 4 5 7 8 9 = Some f' /\
    pixel_at f' 6 6 = Some (opaque (96, 144, 200)) /\
    pixel_at f' 9 8 = Some (opaque (48, 80, 120)) /\
    pixel_at f' 7 8 = Some (opaque (72, 112, 168)).
Proof.
  destruct (draw_rect_with_shading_bevel (zeros 16 16) sample_palette 6 6 4 5 7 8 9
              (72, 112, 168) (48, 80, 120) (96, 144, 200))
    as (f' & Hdraw & _ & _ & Hpix).
  - split; [reflexivity|]. vm_compute. repeat constructor.
  - reflexivity.
  - reflexivity.
  - reflexivity.
  - exists f'. split; [exact Hdraw|]. split_and!.
    + destruct (Hpix 6 6) as [Hin _]; [simpl; lia..|].
      destruct Hin as (H & _ & _); [lia..|]. apply H. lia.
    + destruct (Hpix 9 8) as [Hin _]; [simpl; lia..|].
      destruct Hin as (_ & H & _); [lia..|]. apply H; lia.
    + destruct (Hpix 7 8) as [Hin _]; [simpl; lia..|].
      destruct Hin as (_ & _ & H); [lia..|]. apply H; lia.
Defined.


(** The brick tile on the sample palette: (7, 0) is mortar, (0, 0) a brick
    highlight. *)
Lemma draw_brick_wall_pattern_witness :
  exists f',
    draw_brick_wall (zeros 16 16) sample_palette 4 5 6 = Some f' /\
    brick_tone 7 0 = Dark /\ pixel_at f' 7 0 = Some (opaque (64, 40, 16)) /\
    brick_tone 0 0 = Light /\ pixel_at f' 0 0 = Some (opaque (136, 88, 48)).
Proof.
  destruct (draw_brick_wall_pattern (zeros 16 16) sample_palette 4 5 6
              (96, 64, 32) (64, 40, 16) (136, 88, 48)) as (f' & Hdraw & Hpix).
  - split; [reflexivity|]. vm_compute. repeat constructor.
  - reflexivity.
  - reflexivity.
  - reflexivity.
  - exists f'. split; [exact Hdraw|].
    destruct (Hpix 7 0) as (_ & _ & _ & H70); [simpl; lia..|].
    destruct (Hpix 0 0) as (_ & _ & _ & H00); [simpl; lia..|].
    split_and!; [reflexivity | exact H70 | reflexivity | exact H00].
Defined.

(** * Further properties of the palette *)

Lemma quantize_div (c : Z) : quantize c = 8 * (c / 8).
Proof.
  unfold quantize. rewrite Z.shiftr_div_pow2, Z.shiftl_mul_pow2 by lia.
  change (2 ^ 3) with 8. lia.
Qed.

(** X1: quantizing rounds a channel down to the next multiple of 8: the result
    is at most [c], less than 8 below it, a fixed point of [quantize], and
    stays within 0..248 for an 8-bit channel. *)
Theorem quantize_bounds (c : Z) :
  quantize c = 8 * (c / 8) /\
  quantize c <= c < quantize c + 8 /\
  quantize (quantize c) = quantize c /\
  (0 <= c < 256 -> 0 <= quantize c <= 248).
Proof.
  rewrite !quantize_div.
  pose proof (Z.mod_pos_bound c 8). pose proof (Z.div_mod c 8).
  assert (Hq : 8 * (c / 8) / 8 = c / 8) by (rewrite Z.mul_comm; apply Z.div_mul; lia).
  split; [done|]. split; [lia|]. split; [|lia]. by rewrite Hq.
Qed.



Lemma index_first (c : color) (l : list color) (i : nat) :
  l !! i = Some c -> (forall j, (j < i)%nat -> l !! j <> Some c) -> index c l = Some i.
Proof.
  revert i. induction l as [|p ps IH]; intros i Hi Hfirst; [done|].
  simpl. destruct (decide (p = c)) as [->|Hne].
  - destruct i as [|i]; [done|]. exfalso. by apply (Hfirst 0%nat); [lia|].
  - destruct i as [|i]; [simpl in Hi; congruence|].
    rewrite (IH i); [done|done|]. intros j Hj. apply (Hfirst (S j)). lia.
Qed.

Section PaletteFurther.
Variable pow_half : float -> float.

(** X2: while the palette has room, or when it already holds the quantized
    triple, [add_color] returns the first position at which the palette, as the
    call leaves it, holds that triple: looking the index up gives the
    quantized color back. *)
Theorem add_color_stores (self : RetroColorPalette) (r g b : Z) :
  (length (colors self) < 16)%nat \/ (quantize r, quantize g, quantize b) ∈ colors self ->
  exists i,
    fst (add_color pow_half self r g b) = Some i /\
    getitem (colors (snd (add_color pow_half self r g b))) (Z.of_nat i)
      = Some (quantize r, quantize g, quantize b) /\
    forall j, (j < i)%nat ->
      colors (snd (add_color pow_half self r g b)) !! j
        <> Some (quantize r, quantize g, quantize b).
Proof.
  intros Hroom.
  destruct (decide ((quantize r, quantize g, quantize b) ∈ colors self)) as [Hin|Hin].
  - rewrite add_color_known by done. cbn [fst snd].
    destruct (index_Some _ _ Hin) as (i & Hi & Hl & Hfirst).
    exists i. rewrite getitem_of_nat. done.
  - destruct Hroom as [Hroom|?]; [|done].
    rewrite add_color_append by done. cbn [fst snd colors].
    exists (length (colors self)). rewrite getitem_of_nat. split_and!; [done| |].
    + by apply list_lookup_middle.
    + intros j Hj. rewrite lookup_app_l by done. intros Hc. apply Hin.
      by eapply list_elem_of_lookup_2.
Qed.

Lemma add_colors_lookup_stable (self : RetroColorPalette) (calls : list (Z * Z * Z))
    (i : nat) (c : color) :
  colors self !! i = Some c ->
  colors (add_colors pow_half self calls) !! i = Some c.
Proof.
  intros Hi. destruct (add_colors_prefix pow_half self calls) as [ext ->].
  by apply lookup_app_l_Some.
Qed.

(** X3: the palette only grows at its end: an entry stored at an index is
    found at that index after any further calls, so an index returned earlier
    keeps its color. *)
Theorem add_colors_keeps_entries (self : RetroColorPalette) (calls : list (Z * Z * Z))
    (i : nat) (c : color) :
  colors self !! i = Some c ->
  colors (add_colors pow_half self calls) !! i = Some c.
Proof. apply add_colors_lookup_stable. Qed.

(** X4: a new sprite's palette holds transparent black alone, at index 0;
    whatever is added later, index 0 stays transparent black, and a color
    whose channels are all below 8 resolves to index 0. *)
Theorem sprite_palette_sentinel (width height : Z) (name : string)
    (calls : list (Z * Z * Z)) (r g b : Z) :
  colors (palette (new_sprite pow_half width height name)) = [(0, 0, 0)] /\
  colors (add_colors pow_half (palette (new_sprite pow_half width height name)) calls) !! 0%nat
    = Some (0, 0, 0) /\
  (0 <= r < 8 -> 0 <= g < 8 -> 0 <= b < 8 ->
   fst (add_color pow_half
          (add_colors pow_half (palette (new_sprite pow_half width height name)) calls) r g b)
     = Some 0%nat).
Proof.
  assert (H0 : colors (palette (new_sprite pow_half width height name)) = [(0, 0, 0)]) by done.
  assert (H1 : colors (add_colors pow_half (palette (new_sprite pow_half width height name))
                         calls) !! 0%nat = Some (0, 0, 0)).
  { apply add_colors_lookup_stable. by rewrite H0. }
  split_and!; [done..|]. intros Hr Hg Hb.
  assert (Hq : (quantize r, quantize g, quantize b) = (0, 0, 0)).
  { rewrite !quantize_div. rewrite !Z.div_small by lia. done. }
  rewrite add_color_known; rewrite Hq.
  - cbn [fst]. apply index_first; [done|]. intros j Hj. lia.
  - by eapply list_elem_of_lookup_2.
Qed.

End PaletteFurther.

(** * Further properties of the drawing primitives *)

Lemma write_write_eq (f : frame) (x y : Z) (v1 v2 : pixel) :
  write (write f x y v1) x y v2 = write f x y v2.
Proof.
  unfold write. destruct (decide (in_bounds f x y)) as [Hin|Hout].
  - rewrite (guard_true f) by done. cbn [frame_set shape0 shape1].
    rewrite (guard_true f) by done. unfold frame_set. cbn [shape0 shape1 rows]. f_equal.
    rewrite list_alter_alter_eq. apply list_alter_ext; [|done].
    intros row _. cbn. apply list_insert_insert_eq.
  - rewrite (guard_false f) by done. by rewrite (guard_false f) by done.
Qed.

Lemma write_write_ne (f : frame) (x1 y1 x2 y2 : Z) (v1 v2 : pixel) :
  (x1, y1) <> (x2, y2) ->
  write (write f x1 y1 v1) x2 y2 v2 = write (write f x2 y2 v2) x1 y1 v1.
Proof.
  intros Hne. unfold write.
  destruct (decide (in_bounds f x1 y1)) as [H1|H1];
    destruct (decide (in_bounds f x2 y2)) as [H2|H2];
    rewrite ?(guard_true f), ?(guard_false f) by done;
    cbn [frame_set shape0 shape1];
    rewrite ?(guard_true f), ?(guard_false f) by done; [|done..].
  unfold frame_set. cbn [shape0 shape1 rows]. f_equal.
  destruct H1 as [[? ?] [? ?]], H2 as [[? ?] [? ?]].
  destruct (decide (y1 = y2)) as [->|Hy].
  - rewrite !list_alter_alter_eq. apply list_alter_ext; [|done].
    intros row _. cbn. apply list_insert_insert_ne.
    intros Hx. apply Hne. f_equal. lia.
  - apply list_alter_alter_ne. lia.
Qed.

(** X6: two pixel writes at different coordinates commute, in or out of
    bounds, and of two writes at the same coordinate the second one stands. *)
Theorem set_pixel_safe_compose (f : frame) (palette : RetroColorPalette)
    (x1 y1 r1 g1 b1 a1 x2 y2 r2 g2 b2 a2 : Z) :
  ((x1, y1) <> (x2, y2) ->
   set_pixel_safe (set_pixel_safe f palette x1 y1 r1 g1 b1 a1) palette x2 y2 r2 g2 b2 a2
     = set_pixel_safe (set_pixel_safe f palette x2 y2 r2 g2 b2 a2) palette x1 y1 r1 g1 b1 a1) /\
  set_pixel_safe (set_pixel_safe f palette x1 y1 r1 g1 b1 a1) palette x1 y1 r2 g2 b2 a2
    = set_pixel_safe f palette x1 y1 r2 g2 b2 a2.
Proof.
  rewrite !set_pixel_safe_write. split.
  - apply write_write_ne.
  - apply write_write_eq.
Qed.

(** The loop keeps what its body keeps on the elements it visits. *)
Lemma for_in_preserves_in {A S} (P : S -> Prop) (l : list A) (body : A -> S -> option S) :
  (forall a s s', a ∈ l -> P s -> body a s = Some s' -> P s') ->
  forall s s', P s -> for_in l body s = Some s' -> P s'.
Proof.
  induction l as [|a l IH]; intros Hbody s s' Hs H; simpl in H.
  - by injection H as <-.
  - destruct (body a s) as [s1|] eqn:E; [|done].
    eapply IH; [| |done].
    + intros a' t t' Ha'. apply Hbody. by right.
    + eapply Hbody; [by left|done..].
Qed.

Lemma for_in_nil_body {A S} (l : list A) (body : A -> S -> option S) (s : S) :
  l = [] -> for_in l body s = Some s.
Proof. by intros ->. Qed.

Lemma py_range_empty (a b : Z) : b <= a -> py_range a b = [].
Proof.
  intros H. unfold py_range, seqZ.
  replace (Z.to_nat (b - a)) with 0%nat by lia. done.
Qed.

Lemma py_range_nonempty (a b : Z) : a < b -> exists l, py_range a b = a :: l.
Proof.
  intros H. unfold py_range, seqZ.
  destruct (Z.to_nat (b - a)) as [|n] eqn:E; [lia|].
  cbn [seq fmap list_fmap]. by eexists.
Qed.

Lemma keeps_refl (f : frame) (x0 y0 : Z) : frame_wf f -> keeps f x0 y0 f.
Proof. by intros Hwf. Qed.

Lemma write_keeps f0 x0 y0 f x y v :
  (x, y) <> (x0, y0) -> keeps f0 x0 y0 f -> keeps f0 x0 y0 (write f x y v).
Proof.
  intros Hne [Hs Hp]. split; [by apply write_same_shape|].
  rewrite pixel_at_write by apply Hs.
  rewrite bool_decide_eq_false_2; [done|]. intros (-> & -> & _). done.
Qed.

Lemma paint_keeps f0 x0 y0 f palette x y idx f' :
  (x, y) <> (x0, y0) -> keeps f0 x0 y0 f ->
  paint f palette x y idx = Some f' -> keeps f0 x0 y0 f'.
Proof.
  intros Hne Hk. unfold paint. destruct (getitem _ _) as [[[r g] b]|]; [|done].
  cbn [mbind option_bind]. intros [= <-]. rewrite set_pixel_safe_write.
  by apply write_keeps.
Qed.

Lemma draw_circle_keeps f0 x0 y0 f palette cx cy radius cb cs ch f' :
  radius * radius < (x0 - cx) * (x0 - cx) + (y0 - cy) * (y0 - cy) ->
  keeps f0 x0 y0 f ->
  draw_circle_with_shading f palette cx cy radius cb cs ch = Some f' -> keeps f0 x0 y0 f'.
Proof.
  intros Hout Hk. unfold draw_circle_with_shading.
  apply for_in_preserves; [|done]. intros y g g' Hg.
  apply for_in_preserves; [|done]. intros x h h' Hh. cbv zeta.
  destruct (Z.leb_spec ((x - cx) * (x - cx) + (y - cy) * (y - cy)) (radius * radius))
    as [Hin|_]; [|by intros [= <-]].
  destruct (true_div _ _); [|done]. cbn [mbind option_bind].
  apply paint_keeps; [|done]. intros [= -> ->]. lia.
Qed.

Lemma draw_rect_keeps f0 x0 y0 f palette x y w h cb cs ch f' :
  ~ (x <= x0 < x + w /\ y <= y0 < y + h) ->
  keeps f0 x0 y0 f ->
  draw_rect_with_shading f palette x y w h cb cs ch = Some f' -> keeps f0 x0 y0 f'.
Proof.
  intros Hout Hk. unfold draw_rect_with_shading.
  apply for_in_preserves_in; [|done]. intros py g g' Hpy Hg.
  apply for_in_preserves_in; [|done]. intros px k k' Hpx Hk'.
  apply paint_keeps; [|done]. intros [= -> ->].
  apply elem_of_py_range in Hpy, Hpx. lia.
Qed.

Lemma draw_hair_front_keeps f0 x0 y0 f palette cx cy direction cb cs ch f' :
  (x0, y0) ∉ [(cx-2, cy); (cx-1, cy); (cx, cy); (cx+1, cy); (cx+2, cy);
              (cx-2, cy+1); (cx+2, cy+1); (cx-1, cy+2); (cx+1, cy+2)]
  \/ (direction = "west"%string /\ cx < x0) \/ (direction = "east"%string /\ x0 < cx) ->
  keeps f0 x0 y0 f ->
  draw_hair_front f palette cx cy direction cb cs ch = Some f' -> keeps f0 x0 y0 f'.
Proof.
  intros Hout Hk. unfold draw_hair_front.
  apply for_in_preserves_in; [|done]. intros [px py] g g' Hp Hg.
  destruct (String.eqb direction "west" && (cx <? px)) eqn:Ew; [by intros [= <-]|].
  destruct (String.eqb direction "east" && (px <? cx)) eqn:Ee; [by intros [= <-]|].
  apply paint_keeps; [|done]. intros [= -> ->].
  destruct Hout as [Hout | [[-> Hlt] | [-> Hlt]]]; [done| |].
  - apply andb_false_iff in Ew as [Ew|Ew]; [done|]. apply Z.ltb_ge in Ew. lia.
  - apply andb_false_iff in Ee as [Ee|Ee]; [done|]. apply Z.ltb_ge in Ee. lia.
Qed.

Lemma draw_hair_back_keeps f0 x0 y0 f palette cx cy cb cs ch f' :
  (x0, y0) ∉ [(cx-2, cy); (cx-1, cy); (cx, cy); (cx+1, cy); (cx+2, cy);
              (cx-2, cy+1); (cx-1, cy+1); (cx, cy+1); (cx+1, cy+1); (cx+2, cy+1)] ->
  keeps f0 x0 y0 f ->
  draw_hair_back f palette cx cy cb cs ch = Some f' -> keeps f0 x0 y0 f'.
Proof.
  intros Hout Hk. unfold draw_hair_back.
  apply for_in_preserves_in; [|done]. intros [px py] g g' Hp Hg.
  apply paint_keeps; [|done]. by intros [= -> ->].
Qed.

Lemma for_in_fixed {A S} (l : list A) (body : A -> S -> option S) (s : S) :
  (forall a, a ∈ l -> body a s = Some s) -> for_in l body s = Some s.
Proof.
  induction l as [|a l IH]; intros H; [done|]. simpl.
  rewrite H by by left. apply IH. intros a' Ha'. apply H. by right.
Qed.

(** X7: a rectangle that covers no loop cell (no width, no height, or a
    corner to the right of or below the frame) raises nothing and returns the
    frame as it is, whatever the palette indices. *)
Theorem draw_rect_with_shading_empty (f : frame) (palette : RetroColorPalette)
    (x y width height base_color shadow_color highlight_color : Z) :
  width <= 0 \/ height <= 0 \/ Z.of_nat (shape1 f) <= x \/ Z.of_nat (shape0 f) <= y ->
  draw_rect_with_shading f palette x y width height base_color shadow_color highlight_color
    = Some f.
Proof.
  intros H. unfold draw_rect_with_shading.
  destruct (decide (height <= 0 \/ Z.of_nat (shape0 f) <= y)) as [Hy|Hy].
  - rewrite py_range_empty by lia. done.
  - apply for_in_fixed. intros py _. rewrite py_range_empty; [done|]. lia.
Qed.

Lemma draw_rect_needs_highlight (f : frame) (palette : RetroColorPalette)
    (x y width height base_color shadow_color highlight_color : Z) :
  0 < width -> 0 < height ->
  x < Z.of_nat (shape1 f) -> y < Z.of_nat (shape0 f) ->
  getitem (colors palette) highlight_color = None ->
  draw_rect_with_shading f palette x y width height base_color shadow_color highlight_color
    = None.
Proof.
  intros Hw Hh Hx Hy Hidx. unfold draw_rect_with_shading.
  destruct (py_range_nonempty y (Z.min (Z.of_nat (shape0 f)) (y + height))) as [ys ->]; [lia|].
  destruct (py_range_nonempty x (Z.min (Z.of_nat (shape1 f)) (x + width))) as [xs Hxs]; [lia|].
  cbn [for_in]. rewrite Hxs. cbn [for_in].
  rewrite Z.eqb_refl. cbn [orb]. unfold paint. rewrite Hidx. done.
Qed.

(** X8: the palette lookup comes before the bounds check: when the loops
    visit at least one cell and the highlight index is not in the palette, the
    rectangle raises, even if every cell lies left of or above the frame, where
    nothing would be painted. *)
Theorem draw_rect_with_shading_raises (f : frame) (palette : RetroColorPalette)
    (x y width height base_color shadow_color highlight_color : Z) :
  0 < width -> 0 < height ->
  x < Z.of_nat (shape1 f) -> y < Z.of_nat (shape0 f) ->
  getitem (colors palette) highlight_color = None ->
  draw_rect_with_shading f palette x y width height base_color shadow_color highlight_color
    = None.
Proof. apply draw_rect_needs_highlight. Qed.

Lemma draw_rect_thin (f : frame) (palette : RetroColorPalette)
    (x y width height base_color shadow_color highlight_color : Z) (ch : color) :
  frame_wf f ->
  width = 1 \/ height = 1 ->
  getitem (colors palette) highlight_color = Some ch ->
  exists f',
    draw_rect_with_shading f palette x y width height base_color shadow_color highlight_color
      = Some f' /\
    forall px py, 0 <= px < Z.of_nat (shape1 f) -> 0 <= py < Z.of_nat (shape0 f) ->
      pixel_at f' px py
        = if bool_decide (x <= px < x + width /\ y <= py < y + height)
          then Some (opaque ch) else pixel_at f px py.
Proof.
  intros Hwf Hthin Hh.
  set (ys := py_range y (Z.min (Z.of_nat (shape0 f)) (y + height))).
  set (xs := py_range x (Z.min (Z.of_nat (shape1 f)) (x + width))).
  assert (Hdraw : draw_rect_with_shading f palette x y width height
                    base_color shadow_color highlight_color
                  = Some (strokes (fun _ _ => Some (opaque ch)) (grid ys xs) f)).
  { unfold draw_rect_with_shading.
    apply (for_in_grid _ _ _ _
             (fun f' => py_range x (Z.min (Z.of_nat (shape1 f')) (x + width))) f);
      [|intros px py f' Hpx Hpy|done..].
    - intros f' _ H1. by rewrite H1.
    - apply elem_of_py_range in Hpx, Hpy.
      replace ((px =? x) || (py =? y)) with true.
      + by apply paint_stroke.
      + symmetry. apply orb_true_iff. rewrite !Z.eqb_eq. lia. }
  eexists. split; [exact Hdraw|]. intros px py Hpx Hpy.
  rewrite pixel_at_strokes by done.
  rewrite (bool_decide_ext _ (x <= px < x + width /\ y <= py < y + height)); [done|].
  unfold ys, xs. rewrite elem_of_grid, !elem_of_py_range.
  unfold in_bounds. lia.
Qed.

(** X9: a rectangle one pixel wide or one pixel high is all edge: it needs the
    highlight index alone, paints every pixel it covers in the highlight color
    and leaves the others as they were; so the legs and arms of the character,
    one pixel wide, show neither their base nor their shadow color. *)
Theorem draw_rect_with_shading_thin (f : frame) (palette : RetroColorPalette)
    (x y width height base_color shadow_color highlight_color : Z) (ch : color) :
  frame_wf f ->
  width = 1 \/ height = 1 ->
  getitem (colors palette) highlight_color = Some ch ->
  exists f',
    draw_rect_with_shading f palette x y width height base_color shadow_color highlight_color
      = Some f' /\
    forall px py, 0 <= px < Z.of_nat (shape1 f) -> 0 <= py < Z.of_nat (shape0 f) ->
      pixel_at f' px py
        = if bool_decide (x <= px < x + width /\ y <= py < y + height)
          then Some (opaque ch) else pixel_at f px py.
Proof. apply draw_rect_thin. Qed.

(** X10: a circle of negative radius visits no pixel and returns the frame as
    it is; a circle of radius 0 divides by zero, and so raises, exactly when
    its center is a pixel of the frame. *)
Theorem draw_circle_with_shading_degenerate (f : frame) (palette : RetroColorPalette)
    (cx cy radius base_color shadow_color highlight_color : Z) :
  (radius < 0 ->
   draw_circle_with_shading f palette cx cy radius base_color shadow_color highlight_color
     = Some f) /\
  (radius = 0 ->
   (in_bounds f cx cy ->
    draw_circle_with_shading f palette cx cy radius base_color shadow_color highlight_color
      = None) /\
   (~ in_bounds f cx cy ->
    draw_circle_with_shading f palette cx cy radius base_color shadow_color highlight_color
      = Some f)).
Proof.
  unfold draw_circle_with_shading. split; [|intros ->; split].
  - intros Hr. rewrite py_range_empty by lia. done.
  - intros [[? ?] [? ?]].
    destruct (py_range_nonempty (Z.max 0 (cy - 0)) (Z.min (Z.of_nat (shape0 f)) (cy + 0 + 1)))
      as [ys Hys]; [lia|].
    destruct (py_range_nonempty (Z.max 0 (cx - 0)) (Z.min (Z.of_nat (shape1 f)) (cx + 0 + 1)))
      as [xs Hxs]; [lia|].
    rewrite Hys. cbn [for_in]. rewrite Hxs. cbn [for_in]. cbv zeta.
    replace (Z.max 0 (cx - 0)) with cx by lia. replace (Z.max 0 (cy - 0)) with cy by lia.
    replace ((cx - cx) * (cx - cx) + (cy - cy) * (cy - cy) <=? 0 * 0) with true
      by (symmetry; apply Z.leb_le; lia).
    done.
  - intros Hout.
    destruct (decide (0 <= cy < Z.of_nat (shape0 f))) as [Hy|Hy].
    + apply for_in_fixed. intros y _. rewrite py_range_empty; [done|].
      unfold in_bounds in Hout. lia.
    + rewrite py_range_empty by lia. done.
Qed.

Lemma for_in_strokes (sel : Z -> Z -> option pixel) (body : Z * Z -> frame -> option frame)
    (ps : list (Z * Z)) (f : frame) :
  (forall p g, p ∈ ps -> body p g = Some (stroke sel g p)) ->
  for_in ps body f = Some (strokes sel ps f).
Proof.
  revert f. induction ps as [|p ps IH]; intros f H; [done|].
  cbn [for_in]. rewrite H by by left. unfold strokes. cbn [fold_left].
  apply IH. intros q g Hq. apply H. by right.
Qed.

(** The stages of [draw_legendary_character], in order. *)
Lemma draw_legendary_character_stages (f : frame) (palette : RetroColorPalette)
    (direction : string) (w : Z)
    (skin_base skin_shadow skin_highlight hair_base hair_shadow hair_highlight
     jacket_base jacket_shadow jacket_highlight pants_base pants_shadow pants_highlight
     shoes_base shirt_color : Z) (f' : frame) :
  draw_legendary_character f palette direction w
    skin_base skin_shadow skin_highlight hair_base hair_shadow hair_highlight
    jacket_base jacket_shadow jacket_highlight pants_base pants_shadow pants_highlight
    shoes_base shirt_color = Some f' ->
  exists f1 f2 f4 f5 f6 f7 f8 f9 g1 g2 g3,
    draw_circle_with_shading f palette 8 4 3 skin_base skin_shadow skin_highlight = Some f1 /\
    (if negb (String.eqb direction "north")
     then draw_hair_front f1 palette 8 2 direction hair_base hair_shadow hair_highlight
     else draw_hair_back f1 palette 8 2 hair_base hair_shadow hair_highlight) = Some f2 /\
    draw_rect_with_shading (draw_eyes f2 palette direction) palette 6 6 4 5
      jacket_base jacket_shadow jacket_highlight = Some f4 /\
    draw_rect_with_shading f4 palette 7 6 2 1 shirt_color jacket_shadow jacket_highlight
      = Some f5 /\
    (if negb (String.eqb direction "west")
     then draw_rect_with_shading f5 palette 10 7 1 3 jacket_base jacket_shadow jacket_highlight
     else Some f5) = Some f6 /\
    (if negb (String.eqb direction "east")
     then draw_rect_with_shading f6 palette 5 7 1 3 jacket_base jacket_shadow jacket_highlight
     else Some f6) = Some f7 /\
    draw_rect_with_shading f7 palette 6 (left_leg_y w) 1 4
      pants_base pants_shadow pants_highlight = Some f8 /\
    draw_rect_with_shading f8 palette 9 (right_leg_y w) 1 4
      pants_base pants_shadow pants_highlight = Some f9 /\
    paint f9 palette 5 (left_leg_y w + 3) shoes_base = Some g1 /\
    paint g1 palette 6 (left_leg_y w + 3) shoes_base = Some g2 /\
    paint g2 palette 9 (right_leg_y w + 3) shoes_base = Some g3 /\
    paint g3 palette 10 (right_leg_y w + 3) shoes_base = Some f'.
Proof.
  unfold draw_legendary_character. cbv zeta. intros H.
  apply bind_Some in H as (f1 & E1 & H). apply bind_Some in H as (f2 & E2 & H).
  apply bind_Some in H as (f4 & E4 & H). apply bind_Some in H as (f5 & E5 & H).
  apply bind_Some in H as (f6 & E6 & H). apply bind_Some in H as (f7 & E7 & H).
  apply bind_Some in H as (f8 & E8 & H). apply bind_Some in H as (f9 & E9 & H).
  apply bind_Some in H as (g1 & G1 & H). apply bind_Some in H as (g2 & G2 & H).
  apply bind_Some in H as (g3 & G3 & H).
  exists f1, f2, f4, f5, f6, f7, f8, f9, g1, g2, g3. split_and!; done.
Qed.

Lemma draw_hair_front_strokes (f : frame) (palette : RetroColorPalette)
    (cx cy : Z) (direction : string) (base_color shadow_color highlight_color : Z)
    (cb cs ch : color) :
  getitem (colors palette) base_color = Some cb ->
  getitem (colors palette) shadow_color = Some cs ->
  getitem (colors palette) highlight_color = Some ch ->
  draw_hair_front f palette cx cy direction base_color shadow_color highlight_color
    = Some (strokes
        (fun px py =>
           if String.eqb direction "west" && (cx <? px) then None
           else if String.eqb direction "east" && (px <? cx) then None
           else Some (opaque (if px <? cx then cs else if cx <? px then ch else cb)))
        (hair_pixels cx cy) f).
Proof.
  intros Hb Hs Hh. unfold draw_hair_front. cbv zeta. fold (hair_pixels cx cy).
  apply for_in_strokes. intros [px py] g _. unfold stroke. cbn [fst snd].
  destruct (String.eqb direction "west" && (cx <? px)) eqn:Ew; [done|].
  destruct (String.eqb direction "east" && (px <? cx)) eqn:Ee; [done|].
  destruct (px <? cx) eqn:E1.
  - rewrite andb_true_r in Ee. rewrite Ee. cbn [negb]. by apply paint_stroke.
  - destruct (cx <? px) eqn:E2.
    + rewrite andb_true_r in Ew. rewrite Ew. cbn [negb]. by apply paint_stroke.
    + by apply paint_stroke.
Qed.

(** X11: the front hair, for palette indices that exist: of its nine pixels
    those left of the center take the shadow color, those right of it the
    highlight color and the center one the base color, except that facing
    west the right side, and facing east the left side, is left as it was;
    no other pixel changes. *)
Theorem draw_hair_front_sides (f : frame) (palette : RetroColorPalette)
    (cx cy : Z) (direction : string) (base_color shadow_color highlight_color : Z)
    (cb cs ch : color) :
  frame_wf f ->
  getitem (colors palette) base_color = Some cb ->
  getitem (colors palette) shadow_color = Some cs ->
  getitem (colors palette) highlight_color = Some ch ->
  exists f',
    draw_hair_front f palette cx cy direction base_color shadow_color highlight_color
      = Some f' /\
    forall x y, 0 <= x < Z.of_nat (shape1 f) -> 0 <= y < Z.of_nat (shape0 f) ->
      ((x, y) ∉ hair_pixels cx cy -> pixel_at f' x y = pixel_at f x y) /\
      ((x, y) ∈ hair_pixels cx cy ->
         (x < cx ->
            (direction = "east"%string -> pixel_at f' x y = pixel_at f x y) /\
            (direction <> "east"%string -> pixel_at f' x y = Some (opaque cs))) /\
         (cx < x ->
            (direction = "west"%string -> pixel_at f' x y = pixel_at f x y) /\
            (direction <> "west"%string -> pixel_at f' x y = Some (opaque ch))) /\
         (x = cx -> pixel_at f' x y = Some (opaque cb))).
Proof.
  intros Hwf Hb Hs Hh. eexists. split; [by eapply draw_hair_front_strokes|].
  intros x y Hx Hy. rewrite pixel_at_strokes by done. split.
  - intros Hout. destruct (_ && _); [done|]. destruct (_ && _); [done|].
    rewrite bool_decide_eq_false_2; [done|]. by intros [? _].
  - intros Hin.
    assert (Hb' : bool_decide ((x, y) ∈ hair_pixels cx cy /\ in_bounds f x y) = true)
      by (by apply bool_decide_eq_true_2).
    rewrite Hb'. split_and!.
    + intros Hlt. replace (x <? cx) with true by (symmetry; by apply Z.ltb_lt).
      replace (cx <? x) with false by (symmetry; apply Z.ltb_ge; lia).
      rewrite andb_false_r, andb_true_r. split.
      * intros ->. done.
      * intros Hne. by apply String.eqb_neq in Hne as ->.
    + intros Hlt. replace (x <? cx) with false by (symmetry; apply Z.ltb_ge; lia).
      replace (cx <? x) with true by (symmetry; by apply Z.ltb_lt).
      rewrite andb_false_r, andb_true_r. split.
      * intros ->. done.
      * intros Hne. by apply String.eqb_neq in Hne as ->.
    + intros ->. rewrite !Z.ltb_irrefl, !andb_false_r. done.
Qed.

Lemma strokes_same_shape f0 sel ps g : same_shape f0 g -> same_shape f0 (strokes sel ps g).
Proof.
  intros (Hwf & H0 & H1). destruct (strokes_shape sel ps g) as [E0 E1].
  split_and!; [by apply strokes_wf|congruence..].
Qed.

Lemma draw_hair_back_strokes (f : frame) (palette : RetroColorPalette)
    (cx cy base_color shadow_color highlight_color : Z) (cb : color) :
  getitem (colors palette) base_color = Some cb ->
  draw_hair_back f palette cx cy base_color shadow_color highlight_color
    = Some (strokes (fun _ _ => Some (opaque cb)) (back_hair_pixels cx cy) f).
Proof.
  intros Hb. unfold draw_hair_back. cbv zeta. fold (back_hair_pixels cx cy).
  apply for_in_strokes. intros [px py] g _. by apply paint_stroke.
Qed.

(** X12: with fourteen palette indices that exist the character is drawn
    without raising, for every direction string, walking offset and frame,
    and the frame it returns has the shape of the one it was given. *)
Theorem draw_legendary_character_succeeds (f : frame) (palette : RetroColorPalette)
    (direction : string) (w : Z)
    (skin_base skin_shadow skin_highlight hair_base hair_shadow hair_highlight
     jacket_base jacket_shadow jacket_highlight pants_base pants_shadow pants_highlight
     shoes_base shirt_color : Z) :
  frame_wf f ->
  Forall (fun idx => is_Some (getitem (colors palette) idx))
    [skin_base; skin_shadow; skin_highlight; hair_base; hair_shadow; hair_highlight;
     jacket_base; jacket_shadow; jacket_highlight; pants_base; pants_shadow; pants_highlight;
     shoes_base; shirt_color] ->
  exists f',
    draw_legendary_character f palette direction w
      skin_base skin_shadow skin_highlight hair_base hair_shadow hair_highlight
      jacket_base jacket_shadow jacket_highlight pants_base pants_shadow pants_highlight
      shoes_base shirt_color = Some f' /\
    frame_wf f' /\ shape0 f' = shape0 f /\ shape1 f' = shape1 f.
Proof.
  intros Hwf Hv.
  assert (Hget : forall idx,
            In idx [skin_base; skin_shadow; skin_highlight; hair_base; hair_shadow;
                    hair_highlight; jacket_base; jacket_shadow; jacket_highlight;
                    pants_base; pants_shadow; pants_highlight; shoes_base; shirt_color] ->
            is_Some (getitem (colors palette) idx)).
  { intros idx Hin. rewrite List.Forall_forall in Hv. by apply Hv. }
  clear Hv.
  destruct (Hget skin_base) as [c1 Hc1]; [simpl; tauto|].
  destruct (Hget skin_shadow) as [c2 Hc2]; [simpl; tauto|].
  destruct (Hget skin_highlight) as [c3 Hc3]; [simpl; tauto|].
  destruct (Hget hair_base) as [c4 Hc4]; [simpl; tauto|].
  destruct (Hget hair_shadow) as [c5 Hc5]; [simpl; tauto|].
  destruct (Hget hair_highlight) as [c6 Hc6]; [simpl; tauto|].
  pose proof (Hget jacket_base ltac:(simpl; tauto)) as Hj1.
  pose proof (Hget jacket_shadow ltac:(simpl; tauto)) as Hj2.
  pose proof (Hget jacket_highlight ltac:(simpl; tauto)) as Hj3.
  pose proof (Hget pants_base ltac:(simpl; tauto)) as Hp1.
  pose proof (Hget pants_shadow ltac:(simpl; tauto)) as Hp2.
  pose proof (Hget pants_highlight ltac:(simpl; tauto)) as Hp3.
  pose proof (Hget shirt_color ltac:(simpl; tauto)) as Hsh.
  destruct (Hget shoes_base) as [c Hc]; [simpl; tauto|].
  clear Hget.
  unfold draw_legendary_character. cbv zeta.
  assert (Hs0 : same_shape f f) by done.
  erewrite draw_circle_strokes by (done || lia). cbn [mbind option_bind].
  set (f1 := strokes _ _ f).
  assert (Hs1 : same_shape f f1) by (by apply strokes_same_shape).
  clearbody f1.
  assert (exists f2, (if negb (String.eqb direction "north")
            then draw_hair_front f1 palette 8 2 direction hair_base hair_shadow hair_highlight
            else draw_hair_back f1 palette 8 2 hair_base hair_shadow hair_highlight) = Some f2
            /\ same_shape f f2) as (f2 & -> & Hs2).
  { destruct (negb _).
    - eexists. split; [by eapply draw_hair_front_strokes|]. by apply strokes_same_shape.
    - eexists. split; [by eapply draw_hair_back_strokes|]. by apply strokes_same_shape. }
  cbn [mbind option_bind].
  match goal with |- context [draw_rect_with_shading ?g _ 6 6 4 5] => set (f3 := g) end.
  assert (Hs3 : same_shape f f3).
  { unfold f3. repeat (destruct (String.eqb _ _)); rewrite ?set_pixel_safe_write;
      repeat apply write_same_shape; done. }
  clearbody f3.
  assert (Hrect : forall g x y wd ht b s h,
            same_shape f g ->
            is_Some (getitem (colors palette) b) -> is_Some (getitem (colors palette) s) ->
            is_Some (getitem (colors palette) h) ->
            exists g', draw_rect_with_shading g palette x y wd ht b s h = Some g'
                       /\ same_shape f g').
  { intros g x y wd ht b s h Hg [cb Hb] [cs Hs] [ch Hh].
    eexists. split; [by eapply draw_rect_strokes|]. by apply strokes_same_shape. }
  destruct (Hrect f3 6 6 4 5 jacket_base jacket_shadow jacket_highlight)
    as (f4 & -> & Hs4); [done..|]. cbn [mbind option_bind].
  destruct (Hrect f4 7 6 2 1 shirt_color jacket_shadow jacket_highlight)
    as (f5 & -> & Hs5); [done..|]. cbn [mbind option_bind].
  assert (exists f6, (if negb (String.eqb direction "west")
            then draw_rect_with_shading f5 palette 10 (6 + 1) 1 3
                   jacket_base jacket_shadow jacket_highlight
            else Some f5) = Some f6 /\ same_shape f f6) as (f6 & -> & Hs6).
  { destruct (negb _); [by apply Hrect|by exists f5]. }
  cbn [mbind option_bind].
  assert (exists f7, (if negb (String.eqb direction "east")
            then draw_rect_with_shading f6 palette 5 (6 + 1) 1 3
                   jacket_base jacket_shadow jacket_highlight
            else Some f6) = Some f7 /\ same_shape f f7) as (f7 & -> & Hs7).
  { destruct (negb _); [by apply Hrect|by exists f6]. }
  cbn [mbind option_bind].
  destruct (Hrect f7 6 (left_leg_y w) 1 4 pants_base pants_shadow pants_highlight)
    as (f8 & -> & Hs8); [done..|]. cbn [mbind option_bind].
  destruct (Hrect f8 9 (right_leg_y w) 1 4 pants_base pants_shadow pants_highlight)
    as (f9 & -> & Hs9); [done..|]. cbn [mbind option_bind].
  rewrite !(paint_stroke _ _ _ _ _ c) by done. cbn [mbind option_bind].
  rewrite !(paint_stroke _ _ _ _ _ c) by done. cbn [mbind option_bind].
  rewrite !(paint_stroke _ _ _ _ _ c) by done. cbn [mbind option_bind].
  rewrite !(paint_stroke _ _ _ _ _ c) by done.
  eexists. split; [done|].
  assert (Hfin : same_shape f
            (write (write (write (write f9 5 (left_leg_y w + 3) (opaque c))
               6 (left_leg_y w + 3) (opaque c)) 9 (right_leg_y w + 3) (opaque c))
               10 (right_leg_y w + 3) (opaque c)))
    by (by repeat apply write_same_shape).
  destruct Hfin as (? & ? & ?). done.
Qed.

(** Two coordinates differ, by arithmetic on a component. *)
Ltac pair_neq :=
  let H := fresh in
  intros H; pose proof (f_equal fst H); pose proof (f_equal snd H);
  cbn [fst snd] in *; lia.

(** A coordinate is none of those of an explicit list. *)
Ltac not_in_pixels :=
  repeat (apply not_elem_of_cons; split; [pair_neq|]); apply not_elem_of_nil.

Lemma draw_eyes_same_shape f0 f palette direction :
  same_shape f0 f -> same_shape f0 (draw_eyes f palette direction).
Proof.
  intros Hs. unfold draw_eyes.
  repeat (destruct (String.eqb _ _)); rewrite ?set_pixel_safe_write;
    repeat apply write_same_shape; done.
Qed.

Lemma draw_eyes_keeps f0 x0 y0 f palette direction :
  (x0, y0) <> (7, 4) -> (x0, y0) <> (9, 4) ->
  keeps f0 x0 y0 f -> keeps f0 x0 y0 (draw_eyes f palette direction).
Proof.
  intros H7 H9 Hk. unfold draw_eyes.
  repeat (destruct (String.eqb _ _)); rewrite ?set_pixel_safe_write;
    repeat (apply write_keeps; [congruence|]); done.
Qed.

Lemma keeps_same_shape f0 x0 y0 f : keeps f0 x0 y0 f -> same_shape f0 f.
Proof. by intros [? _]. Qed.

(** A pixel that no stage of the character reaches keeps its value. *)
Lemma draw_legendary_character_keeps (f : frame) (palette : RetroColorPalette)
    (direction : string) (w : Z)
    (skin_base skin_shadow skin_highlight hair_base hair_shadow hair_highlight
     jacket_base jacket_shadow jacket_highlight pants_base pants_shadow pants_highlight
     shoes_base shirt_color : Z) (f' : frame) (x0 y0 : Z) :
  frame_wf f ->
  draw_legendary_character f palette direction w
    skin_base skin_shadow skin_highlight hair_base hair_shadow hair_highlight
    jacket_base jacket_shadow jacket_highlight pants_base pants_shadow pants_highlight
    shoes_base shirt_color = Some f' ->
  3 * 3 < (x0 - 8) * (x0 - 8) + (y0 - 4) * (y0 - 4) ->
  ((x0, y0) ∉ hair_pixels 8 2 ++ back_hair_pixels 8 2) ->
  (x0, y0) <> (7, 4) -> (x0, y0) <> (9, 4) ->
  ~ (6 <= x0 < 6 + 4 /\ 6 <= y0 < 6 + 5) ->
  (direction <> "west"%string -> ~ (10 <= x0 < 10 + 1 /\ 7 <= y0 < 7 + 3)) ->
  (direction <> "east"%string -> ~ (5 <= x0 < 5 + 1 /\ 7 <= y0 < 7 + 3)) ->
  ~ (6 <= x0 < 6 + 1 /\ left_leg_y w <= y0 < left_leg_y w + 4) ->
  ~ (9 <= x0 < 9 + 1 /\ right_leg_y w <= y0 < right_leg_y w + 4) ->
  (x0, y0) ∉ [(5, left_leg_y w + 3); (6, left_leg_y w + 3);
              (9, right_leg_y w + 3); (10, right_leg_y w + 3)] ->
  keeps f x0 y0 f'.
Proof.
  intros Hwf Hdraw Hhead Hhair He7 He9 Hbody Harm_r Harm_l Hleg_l Hleg_r Hshoes.
  apply draw_legendary_character_stages in Hdraw
    as (f1 & f2 & f4 & f5 & f6 & f7 & f8 & f9 & g1 & g2 & g3
        & E1 & E2 & E4 & E5 & E6 & E7 & E8 & E9 & G1 & G2 & G3 & G4).
  apply not_elem_of_app in Hhair as [Hfront Hback].
  pose proof (keeps_refl f x0 y0 Hwf) as K0.
  pose proof (draw_circle_keeps _ _ _ _ _ _ _ _ _ _ _ _ Hhead K0 E1) as K1.
  assert (K2 : keeps f x0 y0 f2).
  { destruct (negb _).
    - eapply draw_hair_front_keeps; [|exact K1|exact E2]. by left.
    - eapply draw_hair_back_keeps; [|exact K1|exact E2]. done. }
  pose proof (draw_eyes_keeps _ _ _ _ palette direction He7 He9 K2) as K3.
  pose proof (draw_rect_keeps _ _ _ _ _ _ _ _ _ _ _ _ _ Hbody K3 E4) as K4.
  assert (K5 : keeps f x0 y0 f5).
  { eapply draw_rect_keeps; [|exact K4|exact E5]. lia. }
  assert (K6 : keeps f x0 y0 f6).
  { destruct (String.eqb_spec direction "west") as [->|Hne]; cbn [negb] in E6.
    - by injection E6 as <-.
    - eapply draw_rect_keeps; [|exact K5|exact E6]. by apply Harm_r. }
  assert (K7 : keeps f x0 y0 f7).
  { destruct (String.eqb_spec direction "east") as [->|Hne]; cbn [negb] in E7.
    - by injection E7 as <-.
    - eapply draw_rect_keeps; [|exact K6|exact E7]. by apply Harm_l. }
  pose proof (draw_rect_keeps _ _ _ _ _ _ _ _ _ _ _ _ _ Hleg_l K7 E8) as K8.
  pose proof (draw_rect_keeps _ _ _ _ _ _ _ _ _ _ _ _ _ Hleg_r K8 E9) as K9.
  apply not_elem_of_cons in Hshoes as [S1 Hshoes].
  apply not_elem_of_cons in Hshoes as [S2 Hshoes].
  apply not_elem_of_cons in Hshoes as [S3 Hshoes].
  apply not_elem_of_cons in Hshoes as [S4 _].
  eapply paint_keeps; [|eapply paint_keeps; [|eapply paint_keeps; [|eapply paint_keeps;
    [|exact K9|exact G1]|exact G2]|exact G3]|exact G4]; congruence.
Qed.

(** X13: the character stays inside columns 5 to 11, whatever the direction
    and the walking offset, and inside rows 1 to 15 for the walking offsets
    -1, 0 and 1: when it is drawn without raising, every pixel outside that
    box keeps its value and the frame keeps its shape. *)
Theorem draw_legendary_character_confined (f : frame) (palette : RetroColorPalette)
    (direction : string) (w : Z)
    (skin_base skin_shadow skin_highlight hair_base hair_shadow hair_highlight
     jacket_base jacket_shadow jacket_highlight pants_base pants_shadow pants_highlight
     shoes_base shirt_color : Z) (f' : frame) (x0 y0 : Z) :
  frame_wf f ->
  draw_legendary_character f palette direction w
    skin_base skin_shadow skin_highlight hair_base hair_shadow hair_highlight
    jacket_base jacket_shadow jacket_highlight pants_base pants_shadow pants_highlight
    shoes_base shirt_color = Some f' ->
  x0 < 5 \/ 11 < x0 \/ (-1 <= w <= 1 /\ (y0 < 1 \/ 15 < y0)) ->
  frame_wf f' /\ shape0 f' = shape0 f /\ shape1 f' = shape1 f /\
  pixel_at f' x0 y0 = pixel_at f x0 y0.
Proof.
  intros Hwf Hdraw Hbox.
  assert (K : keeps f x0 y0 f').
  { eapply draw_legendary_character_keeps; [done|exact Hdraw|..];
      unfold left_leg_y, right_leg_y, legs_y.
    - pose proof (Z.square_nonneg (x0 - 8)). pose proof (Z.square_nonneg (y0 - 4)).
      destruct Hbox as [?|[?|[? [?|?]]]].
      + assert (9 < (x0 - 8) * (x0 - 8)) by nia. lia.
      + assert (9 < (x0 - 8) * (x0 - 8)) by nia. lia.
      + assert (9 < (y0 - 4) * (y0 - 4)) by nia. lia.
      + assert (9 < (y0 - 4) * (y0 - 4)) by nia. lia.
    - unfold hair_pixels, back_hair_pixels. cbn [app].
      not_in_pixels.
    - pair_neq.
    - pair_neq.
    - lia.
    - intros _. lia.
    - intros _. lia.
    - lia.
    - lia.
    - not_in_pixels. }
  destruct K as [(? & ? & ?) ?]. done.
Qed.

(** The stages after the arms: left arm, legs and shoes. *)
Lemma character_tail_keeps (f6 f7 f8 f9 g1 g2 g3 f' : frame) (palette : RetroColorPalette)
    (direction : string) (w jacket_base jacket_shadow jacket_highlight
     pants_base pants_shadow pants_highlight shoes_base x0 y0 : Z) :
  (if negb (String.eqb direction "east")
   then draw_rect_with_shading f6 palette 5 7 1 3 jacket_base jacket_shadow jacket_highlight
   else Some f6) = Some f7 ->
  draw_rect_with_shading f7 palette 6 (left_leg_y w) 1 4
    pants_base pants_shadow pants_highlight = Some f8 ->
  draw_rect_with_shading f8 palette 9 (right_leg_y w) 1 4
    pants_base pants_shadow pants_highlight = Some f9 ->
  paint f9 palette 5 (left_leg_y w + 3) shoes_base = Some g1 ->
  paint g1 palette 6 (left_leg_y w + 3) shoes_base = Some g2 ->
  paint g2 palette 9 (right_leg_y w + 3) shoes_base = Some g3 ->
  paint g3 palette 10 (right_leg_y w + 3) shoes_base = Some f' ->
  frame_wf f6 ->
  -1 <= w <= 1 -> y0 <= 9 -> x0 <> 5 ->
  keeps f6 x0 y0 f'.
Proof.
  intros E7 E8 E9 G1 G2 G3 G4 Hwf Hw Hy Hx.
  pose proof (keeps_refl f6 x0 y0 Hwf) as K6.
  assert (K7 : keeps f6 x0 y0 f7).
  { destruct (negb _).
    - eapply draw_rect_keeps; [|exact K6|exact E7]. lia.
    - by injection E7 as <-. }
  assert (K8 : keeps f6 x0 y0 f8).
  { eapply draw_rect_keeps; [|exact K7|exact E8]. unfold left_leg_y, legs_y. lia. }
  assert (K9 : keeps f6 x0 y0 f9).
  { eapply draw_rect_keeps; [|exact K8|exact E9]. unfold right_leg_y, legs_y. lia. }
  eapply paint_keeps; [|eapply paint_keeps; [|eapply paint_keeps; [|eapply paint_keeps;
    [|exact K9|exact G1]|exact G2]|exact G3]|exact G4];
    unfold left_leg_y, right_leg_y, legs_y; pair_neq.
Qed.

(** X14: the arms, for the walking offsets -1, 0 and 1 and a frame that holds
    the pixels: facing west the right-arm pixels, column 10 on rows 7 to 9, keep
    the value they had, and in every other direction they take the jacket
    highlight color. *)
Theorem draw_legendary_character_right_arm (f : frame) (palette : RetroColorPalette)
    (direction : string) (w : Z)
    (skin_base skin_shadow skin_highlight hair_base hair_shadow hair_highlight
     jacket_base jacket_shadow jacket_highlight pants_base pants_shadow pants_highlight
     shoes_base shirt_color : Z) (f' : frame) (y0 : Z) :
  frame_wf f ->
  -1 <= w <= 1 -> 7 <= y0 <= 9 ->
  10 < Z.of_nat (shape1 f) -> y0 < Z.of_nat (shape0 f) ->
  draw_legendary_character f palette direction w
    skin_base skin_shadow skin_highlight hair_base hair_shadow hair_highlight
    jacket_base jacket_shadow jacket_highlight pants_base pants_shadow pants_highlight
    shoes_base shirt_color = Some f' ->
  (direction = "west"%string -> pixel_at f' 10 y0 = pixel_at f 10 y0) /\
  (direction <> "west"%string ->
   exists c, getitem (colors palette) jacket_highlight = Some c /\
             pixel_at f' 10 y0 = Some (opaque c)).
Proof.
  intros Hwf Hw Hy Hx Hy' Hdraw. split.
  - intros ->.
    assert (K : keeps f 10 y0 f').
    { eapply draw_legendary_character_keeps; [done|exact Hdraw|..];
        unfold left_leg_y, right_leg_y, legs_y.
      - nia.
      - unfold hair_pixels, back_hair_pixels. cbn [app].
        not_in_pixels.
      - pair_neq.
      - pair_neq.
      - lia.
      - intros Hne. done.
      - intros _. lia.
      - lia.
      - lia.
      - not_in_pixels. }
    apply K.
  - intros Hne.
    apply draw_legendary_character_stages in Hdraw
      as (f1 & f2 & f4 & f5 & f6 & f7 & f8 & f9 & g1 & g2 & g3
          & E1 & E2 & E4 & E5 & E6 & E7 & E8 & E9 & G1 & G2 & G3 & G4).
    assert (Hs0 : same_shape f f) by done.
    pose proof (draw_circle_same_shape _ _ _ _ _ _ _ _ _ _ Hs0 E1) as Hs1.
    assert (Hs2 : same_shape f f2).
    { destruct (negb _);
        [by eapply draw_hair_front_same_shape|by eapply draw_hair_back_same_shape]. }
    pose proof (draw_eyes_same_shape _ _ palette direction Hs2) as Hs3.
    pose proof (draw_rect_same_shape _ _ _ _ _ _ _ _ _ _ _ Hs3 E4) as Hs4.
    pose proof (draw_rect_same_shape _ _ _ _ _ _ _ _ _ _ _ Hs4 E5) as Hs5.
    apply String.eqb_neq in Hne. rewrite Hne in E6. cbn [negb] in E6.
    destruct Hs5 as (Hwf5 & H0 & H1).
    destruct (getitem (colors palette) jacket_highlight) as [c|] eqn:Hc.
    + exists c. split; [done|].
      destruct (draw_rect_thin f5 palette 10 7 1 3 jacket_base jacket_shadow jacket_highlight c)
        as (f6' & E6' & Hpix); [done|by left|done|].
      rewrite E6 in E6'. injection E6' as <-.
      assert (Hwf6 : frame_wf f6).
      { eapply (draw_rect_same_shape f5); [|exact E6]. done. }
      pose proof (character_tail_keeps f6 f7 f8 f9 g1 g2 g3 f' palette direction w
                    jacket_base jacket_shadow jacket_highlight pants_base pants_shadow
                    pants_highlight shoes_base 10 y0 E7 E8 E9 G1 G2 G3 G4 Hwf6 Hw
                    ltac:(lia) ltac:(lia)) as [_ ->].
      rewrite Hpix by lia. by rewrite bool_decide_eq_true_2 by lia.
    + rewrite draw_rect_needs_highlight in E6; [done|lia..|done].
Qed.

(** The body, collar and right arm leave the rows above 6 alone. *)
Lemma character_body_keeps (f3 f4 f5 f6 : frame) (palette : RetroColorPalette)
    (direction : string) (jacket_base jacket_shadow jacket_highlight shirt_color x0 y0 : Z) :
  draw_rect_with_shading f3 palette 6 6 4 5 jacket_base jacket_shadow jacket_highlight
    = Some f4 ->
  draw_rect_with_shading f4 palette 7 6 2 1 shirt_color jacket_shadow jacket_highlight
    = Some f5 ->
  (if negb (String.eqb direction "west")
   then draw_rect_with_shading f5 palette 10 7 1 3 jacket_base jacket_shadow jacket_highlight
   else Some f5) = Some f6 ->
  frame_wf f3 -> y0 < 6 ->
  keeps f3 x0 y0 f6.
Proof.
  intros E4 E5 E6 Hwf Hy.
  pose proof (keeps_refl f3 x0 y0 Hwf) as K3.
  assert (K4 : keeps f3 x0 y0 f4).
  { eapply draw_rect_keeps; [|exact K3|exact E4]. lia. }
  assert (K5 : keeps f3 x0 y0 f5).
  { eapply draw_rect_keeps; [|exact K4|exact E5]. lia. }
  destruct (negb _).
  - eapply draw_rect_keeps; [|exact K5|exact E6]. lia.
  - by injection E6 as <-.
Qed.

(** The head paints both eye positions in the base skin color. *)
Lemma head_eye_pixels (f : frame) (palette : RetroColorPalette)
    (skin_base skin_shadow skin_highlight : Z) (cb cs ch : color) (f1 : frame) (x0 : Z) :
  frame_wf f ->
  x0 = 7 \/ x0 = 9 ->
  9 < Z.of_nat (shape1 f) -> 4 < Z.of_nat (shape0 f) ->
  getitem (colors palette) skin_base = Some cb ->
  getitem (colors palette) skin_shadow = Some cs ->
  getitem (colors palette) skin_highlight = Some ch ->
  draw_circle_with_shading f palette 8 4 3 skin_base skin_shadow skin_highlight = Some f1 ->
  pixel_at f1 x0 4 = Some (opaque cb).
Proof.
  intros Hwf Hx0 Hx Hy Hb Hs Hh E1.
  rewrite (draw_circle_strokes f palette 8 4 3 _ _ _ cb cs ch) in E1 by (done || lia).
  injection E1 as <-. rewrite pixel_at_strokes by done.
  assert (Hidx : circle_idx 3 skin_base skin_shadow skin_highlight (x0 - 8) (4 - 4) = skin_base).
  { destruct Hx0 as [-> | ->]; vm_compute; reflexivity. }
  replace ((x0 - 8) * (x0 - 8) + (4 - 4) * (4 - 4) <=? 3 * 3) with true
    by (symmetry; apply Z.leb_le; lia).
  rewrite Hidx, Hb. cbn [fmap option_fmap option_map].
  rewrite bool_decide_eq_true_2; [done|]. split; [|unfold in_bounds; lia].
  rewrite elem_of_grid, !elem_of_py_range. lia.
Qed.

(** X15: the eyes, on a frame that holds the head, for the walking offsets
    -1, 0 and 1 and skin indices that exist: facing south both eye pixels,
    (7, 4) and (9, 4), are black; facing west only (7, 4) and facing east only
    (9, 4) is black, the other one showing the base skin color; facing north
    both show the base skin color: no eyes. *)
Theorem draw_legendary_character_eyes (f : frame) (palette : RetroColorPalette)
    (direction : string) (w : Z)
    (skin_base skin_shadow skin_highlight hair_base hair_shadow hair_highlight
     jacket_base jacket_shadow jacket_highlight pants_base pants_shadow pants_highlight
     shoes_base shirt_color : Z) (cb cs ch : color) (f' : frame) :
  frame_wf f ->
  -1 <= w <= 1 ->
  9 < Z.of_nat (shape1 f) -> 4 < Z.of_nat (shape0 f) ->
  getitem (colors palette) skin_base = Some cb ->
  getitem (colors palette) skin_shadow = Some cs ->
  getitem (colors palette) skin_highlight = Some ch ->
  draw_legendary_character f palette direction w
    skin_base skin_shadow skin_highlight hair_base hair_shadow hair_highlight
    jacket_base jacket_shadow jacket_highlight pants_base pants_shadow pants_highlight
    shoes_base shirt_color = Some f' ->
  (direction = "south"%string ->
   pixel_at f' 7 4 = Some (0, 0, 0, 255) /\ pixel_at f' 9 4 = Some (0, 0, 0, 255)) /\
  (direction = "west"%string ->
   pixel_at f' 7 4 = Some (0, 0, 0, 255) /\ pixel_at f' 9 4 = Some (opaque cb)) /\
  (direction = "east"%string ->
   pixel_at f' 7 4 = Some (opaque cb) /\ pixel_at f' 9 4 = Some (0, 0, 0, 255)) /\
  (direction = "north"%string ->
   pixel_at f' 7 4 = Some (opaque cb) /\ pixel_at f' 9 4 = Some (opaque cb)).
Proof.
  intros Hwf Hw Hx Hy Hb Hs Hh Hdraw.
  apply draw_legendary_character_stages in Hdraw
    as (f1 & f2 & f4 & f5 & f6 & f7 & f8 & f9 & g1 & g2 & g3
        & E1 & E2 & E4 & E5 & E6 & E7 & E8 & E9 & G1 & G2 & G3 & G4).
  assert (Hs0 : same_shape f f) by done.
  pose proof (draw_circle_same_shape _ _ _ _ _ _ _ _ _ _ Hs0 E1) as Hs1.
  assert (Hs2 : same_shape f f2).
  { destruct (negb (String.eqb direction "north"));
      [by eapply draw_hair_front_same_shape|by eapply draw_hair_back_same_shape]. }
  pose proof (draw_eyes_same_shape _ _ palette direction Hs2) as Hs3.
  pose proof (draw_rect_same_shape _ _ _ _ _ _ _ _ _ _ _ Hs3 E4) as Hs4.
  pose proof (draw_rect_same_shape _ _ _ _ _ _ _ _ _ _ _ Hs4 E5) as Hs5.
  assert (Hs6 : same_shape f f6).
  { destruct (negb (String.eqb direction "west"));
      [eapply draw_rect_same_shape; [exact Hs5|exact E6] | by injection E6 as <-]. }
  assert (Hfinal : forall x0, x0 = 7 \/ x0 = 9 ->
            pixel_at f' x0 4 = pixel_at (draw_eyes f2 palette direction) x0 4).
  { intros x0 Hx0.
    pose proof (character_tail_keeps f6 f7 f8 f9 g1 g2 g3 f' palette direction w
                  jacket_base jacket_shadow jacket_highlight pants_base pants_shadow
                  pants_highlight shoes_base x0 4 E7 E8 E9 G1 G2 G3 G4
                  (proj1 Hs6) Hw ltac:(lia) ltac:(lia)) as [_ ->].
    pose proof (character_body_keeps _ f4 f5 f6 palette direction jacket_base jacket_shadow
                  jacket_highlight shirt_color x0 4 E4 E5 E6 (proj1 Hs3) ltac:(lia))
      as [_ ->].
    done. }
  assert (Hhead : forall x0, x0 = 7 \/ x0 = 9 -> pixel_at f1 x0 4 = Some (opaque cb)).
  { intros x0 Hx0.
    exact (head_eye_pixels f palette skin_base skin_shadow skin_highlight cb cs ch f1 x0
             Hwf Hx0 Hx Hy Hb Hs Hh E1). }
  assert (Hin2 : forall x0, x0 = 7 \/ x0 = 9 -> in_bounds f2 x0 4).
  { intros x0 Hx0. destruct Hs2 as (_ & E0 & E1'). unfold in_bounds. rewrite E0, E1'. lia. }
  rewrite !Hfinal by auto. clear Hfinal E4 E5 E6 E7 E8 E9 G1 G2 G3 G4.
  unfold draw_eyes. split_and!; intros ->; cbn [String.eqb Ascii.eqb Bool.eqb negb] in *.
  - rewrite !set_pixel_safe_write. split.
    + rewrite pixel_at_write by (apply write_wf, Hs2).
      rewrite bool_decide_eq_false_2 by (intros (? & _); lia).
      rewrite pixel_at_write by apply Hs2.
      by rewrite bool_decide_eq_true_2 by (split_and!; auto).
    + rewrite pixel_at_write by (apply write_wf, Hs2).
      rewrite bool_decide_eq_true_2; [done|]. split_and!; [done..|].
      destruct (write_shape f2 7 4 (u8 0, u8 0, u8 0, u8 255)) as [E0' E1'].
      unfold in_bounds. rewrite E0', E1'. by apply Hin2; right.
  - rewrite !set_pixel_safe_write. split.
    + rewrite pixel_at_write by apply Hs2.
      by rewrite bool_decide_eq_true_2 by (split_and!; auto).
    + rewrite pixel_at_write by apply Hs2.
      rewrite bool_decide_eq_false_2 by (intros (? & _); lia).
      assert (K : keeps f1 9 4 f2).
      { eapply draw_hair_front_keeps; [|apply keeps_refl, Hs1|exact E2].
        right; left. split; [done|lia]. }
      destruct K as [_ ->]. apply Hhead. by right.
  - rewrite !set_pixel_safe_write. split.
    + rewrite pixel_at_write by apply Hs2.
      rewrite bool_decide_eq_false_2 by (intros (? & _); lia).
      assert (K : keeps f1 7 4 f2).
      { eapply draw_hair_front_keeps; [|apply keeps_refl, Hs1|exact E2].
        right; right. split; [done|lia]. }
      destruct K as [_ ->]. apply Hhead. by left.
    + rewrite pixel_at_write by apply Hs2.
      by rewrite bool_decide_eq_true_2 by (split_and!; auto).
  - assert (K : forall x0, x0 = 7 \/ x0 = 9 -> keeps f1 x0 4 f2).
    { intros x0 Hx0. eapply draw_hair_back_keeps; [|apply keeps_refl, Hs1|exact E2].
      destruct Hx0 as [-> | ->]; not_in_pixels. }
    destruct (K 7) as [_ ->]; [by left|]. destruct (K 9) as [_ ->]; [by right|].
    split; apply Hhead; auto.
Qed.

(** * Further properties of the tiles *)

(** The double loop of a tile, storing the color [pick x y] at [(x, y)]. *)
Lemma tile_loop_strokes (pick : Z -> Z -> color) (f : frame) (palette : RetroColorPalette) :
  for_in (py_range 0 16)
    (fun y f =>
      for_in (py_range 0 16)
        (fun x f =>
          let '(r, g, b) := pick x y in
          Some (set_pixel_safe f palette x y r g b 255)) f) f
  = Some (strokes (fun x y => Some (opaque (pick x y)))
            (grid (py_range 0 16) (py_range 0 16)) f).
Proof.
  apply (for_in_grid _ _ _ _ (fun _ => py_range 0 16) f); [done| |done..].
  intros x y f' _ _. unfold stroke. cbn [fst snd]. by destruct (pick x y) as [[r g] b].
Qed.

Lemma tile_pixels (pick : Z -> Z -> color) (f : frame) (x y : Z) :
  frame_wf f -> in_bounds f x y ->
  pixel_at (strokes (fun x y => Some (opaque (pick x y)))
              (grid (py_range 0 16) (py_range 0 16)) f) x y
    = if bool_decide (0 <= x < 16 /\ 0 <= y < 16) then Some (opaque (pick x y))
      else pixel_at f x y.
Proof.
  intros Hwf Hb. rewrite pixel_at_strokes by done.
  rewrite (bool_decide_ext _ (0 <= x < 16 /\ 0 <= y < 16)); [done|].
  rewrite elem_of_grid, !elem_of_py_range. split; [lia|]. intros ?. split; [lia|done].
Qed.

(** A tile painter looks its three colors up first and then runs the loop. *)
Lemma tile_painter_cases (draw : frame -> RetroColorPalette -> Z -> Z -> Z -> option frame)
    (pick : color -> color -> color -> Z -> Z -> color)
    (f : frame) (palette : RetroColorPalette) (i1 i2 i3 : Z) :
  draw f palette i1 i2 i3
    = (c1 ← getitem (colors palette) i1;
       c2 ← getitem (colors palette) i2;
       c3 ← getitem (colors palette) i3;
       Some (strokes (fun x y => Some (opaque (pick c1 c2 c3 x y)))
               (grid (py_range 0 16) (py_range 0 16)) f)) ->
  (forall c1 c2 c3 x y, pick c1 c2 c3 x y = c1 \/ pick c1 c2 c3 x y = c2
                        \/ pick c1 c2 c3 x y = c3) ->
  frame_wf f ->
  (draw f palette i1 i2 i3 = None <->
   getitem (colors palette) i1 = None \/ getitem (colors palette) i2 = None
   \/ getitem (colors palette) i3 = None) /\
  forall f', draw f palette i1 i2 i3 = Some f' ->
    shape0 f' = shape0 f /\ shape1 f' = shape1 f /\
    forall x y, in_bounds f x y ->
      (0 <= x < 16 -> 0 <= y < 16 ->
       exists i c, i ∈ [i1; i2; i3] /\ getitem (colors palette) i = Some c /\
                   pixel_at f' x y = Some (opaque c)) /\
      (~ (0 <= x < 16 /\ 0 <= y < 16) -> pixel_at f' x y = pixel_at f x y).
Proof.
  intros Hdraw Hpick Hwf. rewrite Hdraw. clear Hdraw.
  destruct (getitem (colors palette) i1) as [c1|] eqn:E1; cbn [mbind option_bind];
    [|split; [split; [auto|done]|done]].
  destruct (getitem (colors palette) i2) as [c2|] eqn:E2; cbn [mbind option_bind];
    [|split; [split; [auto|done]|done]].
  destruct (getitem (colors palette) i3) as [c3|] eqn:E3; cbn [mbind option_bind];
    [|split; [split; [auto|done]|done]].
  split; [split; [done|by intros [?|[?|?]]]|].
  intros f' Hf'. apply (inj Some) in Hf'. subst f'.
  destruct (strokes_shape (fun x y => Some (opaque (pick c1 c2 c3 x y)))
              (grid (py_range 0 16) (py_range 0 16)) f) as [-> ->].
  split_and!; [done..|]. intros x y Hb. rewrite tile_pixels by done. split.
  - intros Hx Hy. rewrite bool_decide_eq_true_2 by done.
    destruct (Hpick c1 c2 c3 x y) as [-> | [-> | ->]].
    + exists i1, c1. split_and!; [|done..]. by left.
    + exists i2, c2. split_and!; [|done..]. right. by left.
    + exists i3, c3. split_and!; [|done..]. right. right. by left.
  - intros Hout. by rewrite bool_decide_eq_false_2.
Qed.

Lemma draw_concrete_tile_strokes (f : frame) (palette : RetroColorPalette) (base dark light : Z) :
  draw_concrete_tile f palette base dark light
    = (cb ← getitem (colors palette) base;
       cd ← getitem (colors palette) dark;
       cl ← getitem (colors palette) light;
       Some (strokes
               (fun x y => Some (opaque (if (x + y) mod 4 =? 0 then cl
                                         else if (x + y) mod 3 =? 0 then cd else cb)))
               (grid (py_range 0 16) (py_range 0 16)) f)).
Proof.
  unfold draw_concrete_tile.
  destruct (getitem _ base) as [cb|]; [|done]. destruct (getitem _ dark) as [cd|]; [|done].
  destruct (getitem _ light) as [cl|]; [|done]. cbn [mbind option_bind].
  apply (tile_loop_strokes (fun x y => if (x + y) mod 4 =? 0 then cl
                                       else if (x + y) mod 3 =? 0 then cd else cb)).
Qed.

Lemma draw_brick_wall_strokes' (f : frame) (palette : RetroColorPalette) (base dark light : Z) :
  draw_brick_wall f palette base dark light
    = (cb ← getitem (colors palette) base;
       cd ← getitem (colors palette) dark;
       cl ← getitem (colors palette) light;
       Some (strokes (fun x y => Some (opaque (tone_color cb cd cl (brick_tone x y))))
               (grid (py_range 0 16) (py_range 0 16)) f)).
Proof.
  destruct (getitem (colors palette) base) as [cb|] eqn:Eb;
    [|by unfold draw_brick_wall; rewrite Eb].
  destruct (getitem (colors palette) dark) as [cd|] eqn:Ed;
    [|by unfold draw_brick_wall; rewrite Eb, Ed].
  destruct (getitem (colors palette) light) as [cl|] eqn:El;
    [|by unfold draw_brick_wall; rewrite Eb, Ed, El].
  cbn [mbind option_bind]. by apply draw_brick_wall_strokes.
Qed.

Lemma draw_asphalt_road_strokes (f : frame) (palette : RetroColorPalette)
    (base dark line_color : Z) :
  draw_asphalt_road f palette base dark line_color
    = (cb ← getitem (colors palette) base;
       cd ← getitem (colors palette) dark;
       cl ← getitem (colors palette) line_color;
       Some (strokes
               (fun x y => Some (opaque (if (y =? 7) || (y =? 8)
                                         then (if x mod 4 <? 2 then cl else cb)
                                         else (if (x + y * 3) mod 7 =? 0 then cd else cb))))
               (grid (py_range 0 16) (py_range 0 16)) f)).
Proof.
  unfold draw_asphalt_road.
  destruct (getitem _ base) as [cb|]; [|done]. destruct (getitem _ dark) as [cd|]; [|done].
  destruct (getitem _ line_color) as [cl|]; [|done]. cbn [mbind option_bind].
  apply (tile_loop_strokes (fun x y => if (y =? 7) || (y =? 8)
                                       then (if x mod 4 <? 2 then cl else cb)
                                       else (if (x + y * 3) mod 7 =? 0 then cd else cb))).
Qed.

Lemma draw_grass_patch_strokes (f : frame) (palette : RetroColorPalette) (base dark light : Z) :
  draw_grass_patch f palette base dark light
    = (cb ← getitem (colors palette) base;
       cd ← getitem (colors palette) dark;
       cl ← getitem (colors palette) light;
       Some (strokes
               (fun x y => Some (opaque (if (x * 7 + y * 11) mod 13 <? 2 then cl
                                         else if (x * 7 + y * 11) mod 13 <? 5 then cd
                                         else cb)))
               (grid (py_range 0 16) (py_range 0 16)) f)).
Proof.
  unfold draw_grass_patch.
  destruct (getitem _ base) as [cb|]; [|done]. destruct (getitem _ dark) as [cd|]; [|done].
  destruct (getitem _ light) as [cl|]; [|done]. cbn [mbind option_bind]. cbv zeta.
  apply (tile_loop_strokes (fun x y => if (x * 7 + y * 11) mod 13 <? 2 then cl
                                       else if (x * 7 + y * 11) mod 13 <? 5 then cd
                                       else cb)).
Qed.

(** X16: each of the four tile painters looks its three palette indices up
    before it paints: it raises exactly when one of them is missing, and
    otherwise keeps the frame's shape, gives every pixel of the 16 x 16 area
    that the frame holds one of the three colors, fully opaque, and leaves the
    pixels outside that area as they were. *)
Theorem tile_painters_cover (f : frame) (palette : RetroColorPalette) (i1 i2 i3 : Z) :
  frame_wf f ->
  Forall (fun draw : frame -> RetroColorPalette -> Z -> Z -> Z -> option frame =>
    (draw f palette i1 i2 i3 = None <->
     getitem (colors palette) i1 = None \/ getitem (colors palette) i2 = None
     \/ getitem (colors palette) i3 = None) /\
    forall f', draw f palette i1 i2 i3 = Some f' ->
      shape0 f' = shape0 f /\ shape1 f' = shape1 f /\
      forall x y, in_bounds f x y ->
        (0 <= x < 16 -> 0 <= y < 16 ->
         exists i c, i ∈ [i1; i2; i3] /\ getitem (colors palette) i = Some c /\
                     pixel_at f' x y = Some (opaque c)) /\
        (~ (0 <= x < 16 /\ 0 <= y < 16) -> pixel_at f' x y = pixel_at f x y))
    [draw_concrete_tile; draw_brick_wall; draw_asphalt_road; draw_grass_patch].
Proof.
  intros Hwf. repeat apply List.Forall_cons; [| | | |apply List.Forall_nil].
  - apply (tile_painter_cases _ (fun cb cd cl x y =>
             if (x + y) mod 4 =? 0 then cl else if (x + y) mod 3 =? 0 then cd else cb));
      [apply draw_concrete_tile_strokes| |done].
    intros c1 c2 c3 x y. destruct (_ =? _); [auto|]. destruct (_ =? _); auto.
  - apply (tile_painter_cases _ (fun cb cd cl x y => tone_color cb cd cl (brick_tone x y)));
      [apply draw_brick_wall_strokes'| |done].
    intros c1 c2 c3 x y. destruct (brick_tone x y); cbn; auto.
  - apply (tile_painter_cases _ (fun cb cd cl x y =>
             if (y =? 7) || (y =? 8) then (if x mod 4 <? 2 then cl else cb)
             else (if (x + y * 3) mod 7 =? 0 then cd else cb)));
      [apply draw_asphalt_road_strokes| |done].
    intros c1 c2 c3 x y. destruct (_ || _); [destruct (_ <? _)|destruct (_ =? _)]; auto.
  - apply (tile_painter_cases _ (fun cb cd cl x y =>
             if (x * 7 + y * 11) mod 13 <? 2 then cl
             else if (x * 7 + y * 11) mod 13 <? 5 then cd else cb));
      [apply draw_grass_patch_strokes| |done].
    intros c1 c2 c3 x y. destruct (_ <? _); [auto|]. destruct (_ <? _); auto.
Qed.

(** X17: the concrete tile is a function of [x + y]: the light color where
    [x + y] is a multiple of 4, else the dark color where it is a multiple of 3,
    else the base color; so the tile is constant along its anti-diagonals. *)
Theorem draw_concrete_tile_pattern (f : frame) (palette : RetroColorPalette)
    (base dark light : Z) (cb cd cl : color) :
  frame_wf f ->
  getitem (colors palette) base = Some cb ->
  getitem (colors palette) dark = Some cd ->
  getitem (colors palette) light = Some cl ->
  exists f',
    draw_concrete_tile f palette base dark light = Some f' /\
    forall x y, 0 <= x < 16 -> 0 <= y < 16 -> in_bounds f x y ->
      ((x + y) mod 4 = 0 -> pixel_at f' x y = Some (opaque cl)) /\
      ((x + y) mod 4 <> 0 -> (x + y) mod 3 = 0 -> pixel_at f' x y = Some (opaque cd)) /\
      ((x + y) mod 4 <> 0 -> (x + y) mod 3 <> 0 -> pixel_at f' x y = Some (opaque cb)) /\
      (forall x' y', 0 <= x' < 16 -> 0 <= y' < 16 -> in_bounds f x' y' ->
         x' + y' = x + y -> pixel_at f' x' y' = pixel_at f' x y).
Proof.
  intros Hwf Hb Hd Hl. eexists. split.
  { rewrite draw_concrete_tile_strokes, Hb, Hd, Hl. done. }
  intros x y Hx Hy Hin. rewrite tile_pixels by done.
  rewrite bool_decide_eq_true_2 by done. split_and!.
  - intros ->. done.
  - intros H4 ->. by apply Z.eqb_neq in H4 as ->.
  - intros H4 H3. apply Z.eqb_neq in H4 as ->. by apply Z.eqb_neq in H3 as ->.
  - intros x' y' Hx' Hy' Hin' Hsum. rewrite tile_pixels by done.
    rewrite bool_decide_eq_true_2 by done. by rewrite Hsum.
Qed.

(** X18: the asphalt tile: rows 7 and 8 carry the dashed line, the line color
    on the columns with [x mod 4 < 2] and the base color between the dashes, so
    the two rows are equal; on the other rows a pixel is dark where
    [x + 3 y] is a multiple of 7 and base elsewhere. *)
Theorem draw_asphalt_road_pattern (f : frame) (palette : RetroColorPalette)
    (base dark line_color : Z) (cb cd cl : color) :
  frame_wf f ->
  getitem (colors palette) base = Some cb ->
  getitem (colors palette) dark = Some cd ->
  getitem (colors palette) line_color = Some cl ->
  exists f',
    draw_asphalt_road f palette base dark line_color = Some f' /\
    forall x y, 0 <= x < 16 -> 0 <= y < 16 -> in_bounds f x y ->
      (y = 7 \/ y = 8 ->
         (x mod 4 < 2 -> pixel_at f' x y = Some (opaque cl)) /\
         (2 <= x mod 4 -> pixel_at f' x y = Some (opaque cb)) /\
         (in_bounds f x 8 -> pixel_at f' x 7 = pixel_at f' x 8)) /\
      (y <> 7 -> y <> 8 ->
         ((x + y * 3) mod 7 = 0 -> pixel_at f' x y = Some (opaque cd)) /\
         ((x + y * 3) mod 7 <> 0 -> pixel_at f' x y = Some (opaque cb))).
Proof.
  intros Hwf Hb Hd Hl. eexists. split.
  { rewrite draw_asphalt_road_strokes, Hb, Hd, Hl. done. }
  intros x y Hx Hy Hin. rewrite !tile_pixels by done.
  rewrite bool_decide_eq_true_2 by done. split.
  - intros Hrow.
    replace ((y =? 7) || (y =? 8)) with true
      by (symmetry; apply orb_true_iff; rewrite !Z.eqb_eq; done).
    split_and!.
    + intros H. by apply Z.ltb_lt in H as ->.
    + intros H. by apply Z.ltb_ge in H as ->.
    + intros Hin8.
      assert (Hin7 : in_bounds f x 7) by (unfold in_bounds in *; lia).
      rewrite !tile_pixels by done. rewrite !bool_decide_eq_true_2 by lia. done.
  - intros H7 H8.
    replace ((y =? 7) || (y =? 8)) with false
      by (symmetry; apply orb_false_iff; rewrite !Z.eqb_neq; done).
    split.
    + intros ->. done.
    + intros H. by apply Z.eqb_neq in H as ->.
Qed.

(** X19: the grass tile takes its color from [(7 x + 11 y) mod 13]: light
    below 2, dark from 2 to 4, base from 5 on; so the light pixels stand
    alone: the right and the lower neighbour of a light pixel have the base
    color. *)
Theorem draw_grass_patch_pattern (f : frame) (palette : RetroColorPalette)
    (base dark light : Z) (cb cd cl : color) :
  frame_wf f ->
  getitem (colors palette) base = Some cb ->
  getitem (colors palette) dark = Some cd ->
  getitem (colors palette) light = Some cl ->
  exists f',
    draw_grass_patch f palette base dark light = Some f' /\
    forall x y, 0 <= x < 16 -> 0 <= y < 16 -> in_bounds f x y ->
      ((x * 7 + y * 11) mod 13 < 2 -> pixel_at f' x y = Some (opaque cl)) /\
      (2 <= (x * 7 + y * 11) mod 13 < 5 -> pixel_at f' x y = Some (opaque cd)) /\
      (5 <= (x * 7 + y * 11) mod 13 -> pixel_at f' x y = Some (opaque cb)) /\
      ((x * 7 + y * 11) mod 13 < 2 ->
         (x + 1 < 16 -> in_bounds f (x + 1) y ->
          pixel_at f' (x + 1) y = Some (opaque cb)) /\
         (y + 1 < 16 -> in_bounds f x (y + 1) ->
          pixel_at f' x (y + 1) = Some (opaque cb))).
Proof.
  intros Hwf Hb Hd Hl. eexists. split.
  { rewrite draw_grass_patch_strokes, Hb, Hd, Hl. done. }
  assert (Hbase : forall u, 5 <= u ->
            (if u <? 2 then cl else if u <? 5 then cd else cb) = cb).
  { intros u Hu. replace (u <? 2) with false by (symmetry; apply Z.ltb_ge; lia).
    by replace (u <? 5) with false by (symmetry; apply Z.ltb_ge; lia). }
  intros x y Hx Hy Hin. rewrite tile_pixels by done.
  rewrite bool_decide_eq_true_2 by done. split_and!.
  - intros H. by apply Z.ltb_lt in H as ->.
  - intros [H2 H5]. apply Z.ltb_ge in H2 as ->. by apply Z.ltb_lt in H5 as ->.
  - intros H. by rewrite Hbase.
  - intros H. pose proof (Z.mod_pos_bound (x * 7 + y * 11) 13 ltac:(lia)) as Hv.
    split.
    + intros Hx1 Hin1. rewrite tile_pixels by done.
      rewrite bool_decide_eq_true_2 by lia. rewrite Hbase; [done|].
      replace ((x + 1) * 7 + y * 11) with ((x * 7 + y * 11) + 7) by lia.
      rewrite <- Zplus_mod_idemp_l. rewrite Z.mod_small; lia.
    + intros Hy1 Hin1. rewrite tile_pixels by done.
      rewrite bool_decide_eq_true_2 by lia. rewrite Hbase; [done|].
      replace (x * 7 + (y + 1) * 11) with ((x * 7 + y * 11) + 11) by lia.
      rewrite <- Zplus_mod_idemp_l. rewrite Z.mod_small; lia.
Qed.

Lemma brick_tone_period (x y : Z) :
  brick_tone (x + 8) y = brick_tone x y /\ brick_tone x (y + 8) = brick_tone x y.
Proof.
  unfold brick_tone.
  replace (x + 8) with (x + 1 * 8) by lia.
  replace (y + 8) with (y + 2 * 4) by lia.
  rewrite (Z.mod_add x 1 8), (Z.mod_add y 2 4), (Z.div_add y 2 4) by lia.
  replace (y / 4 + 2) with (y / 4 + 1 * 2) by lia.
  rewrite (Z.mod_add (y / 4) 1 2) by lia. done.
Qed.

(** X20: the brick pattern repeats every 8 pixels in both directions: on a
    frame that holds the tile, the four 8 x 8 quarters of the brick tile are
    equal, so the tile joins its copies without a seam. *)
Theorem draw_brick_wall_periodic (f : frame) (palette : RetroColorPalette)
    (base dark light : Z) (cb cd cl : color) :
  frame_wf f ->
  16 <= Z.of_nat (shape1 f) -> 16 <= Z.of_nat (shape0 f) ->
  getitem (colors palette) base = Some cb ->
  getitem (colors palette) dark = Some cd ->
  getitem (colors palette) light = Some cl ->
  exists f',
    draw_brick_wall f palette base dark light = Some f' /\
    forall x y, 0 <= x < 8 -> 0 <= y < 8 ->
      pixel_at f' (x + 8) y = pixel_at f' x y /\
      pixel_at f' x (y + 8) = pixel_at f' x y /\
      pixel_at f' (x + 8) (y + 8) = pixel_at f' x y.
Proof.
  intros Hwf Hw Hh Hb Hd Hl. eexists. split; [by eapply draw_brick_wall_strokes|].
  intros x y Hx Hy.
  rewrite !tile_pixels by (done || unfold in_bounds; lia).
  rewrite !bool_decide_eq_true_2 by lia.
  destruct (brick_tone_period x y) as [Ex Ey].
  destruct (brick_tone_period x (y + 8)) as [Exy _].
  rewrite Exy, Ex, Ey. done.
Qed.

(** ** Further properties of the colors drawn *)

Lemma getitem_elem_of {A} (l : list A) (i : Z) (c : A) : getitem l i = Some c -> c ∈ l.
Proof.
  unfold getitem. intros H.
  destruct ((0 <=? i) && (i <? Z.of_nat (length l)));
    [by eapply list_elem_of_lookup_2|].
  destruct ((- Z.of_nat (length l) <=? i) && (i <? 0)); [|done].
  by eapply list_elem_of_lookup_2.
Qed.

Lemma drawn_refl (palette : RetroColorPalette) (f : frame) : frame_wf f -> drawn palette f f.
Proof. intros Hwf. split; [done|]. intros x y v H. by left. Qed.

Lemma write_drawn palette f0 f x y v :
  v = (0, 0, 0, 255) \/ (exists c, c ∈ colors palette /\ v = opaque c) ->
  drawn palette f0 f -> drawn palette f0 (write f x y v).
Proof.
  intros Hv [Hs Hp]. split; [by apply write_same_shape|].
  intros x' y' v'. rewrite pixel_at_write by apply Hs.
  case_bool_decide; [|by apply Hp]. intros [= <-]. by right.
Qed.

Lemma paint_drawn palette f0 f x y idx f' :
  drawn palette f0 f -> paint f palette x y idx = Some f' -> drawn palette f0 f'.
Proof.
  intros Hd. unfold paint. destruct (getitem _ _) as [[[r g] b]|] eqn:E; [|done].
  cbn [mbind option_bind]. intros [= <-]. rewrite set_pixel_safe_write.
  apply write_drawn; [|done]. right. exists (r, g, b). split; [|done].
  by eapply getitem_elem_of.
Qed.

Lemma draw_circle_drawn palette f0 f cx cy radius cb cs ch f' :
  drawn palette f0 f ->
  draw_circle_with_shading f palette cx cy radius cb cs ch = Some f' -> drawn palette f0 f'.
Proof.
  unfold draw_circle_with_shading.
  apply for_in_preserves. intros y g g' Hg.
  apply for_in_preserves; [|done]. intros x h h' Hh. cbv zeta.
  destruct (_ <=? _); [|by intros [= <-]].
  destruct (true_div _ _); [|done]. cbn [mbind option_bind].
  by apply paint_drawn.
Qed.

Lemma draw_rect_drawn palette f0 f x y w h cb cs ch f' :
  drawn palette f0 f ->
  draw_rect_with_shading f palette x y w h cb cs ch = Some f' -> drawn palette f0 f'.
Proof.
  unfold draw_rect_with_shading.
  apply for_in_preserves. intros py g g' Hg.
  apply for_in_preserves; [|done]. intros px k k' Hk.
  by apply paint_drawn.
Qed.

Lemma draw_hair_front_drawn palette f0 f cx cy direction cb cs ch f' :
  drawn palette f0 f ->
  draw_hair_front f palette cx cy direction cb cs ch = Some f' -> drawn palette f0 f'.
Proof.
  unfold draw_hair_front.
  apply for_in_preserves. intros [px py] g g' Hg.
  destruct (String.eqb direction "west" && (cx <? px)); [by intros [= <-]|].
  destruct (String.eqb direction "east" && (px <? cx)); [by intros [= <-]|].
  by apply paint_drawn.
Qed.

Lemma draw_hair_back_drawn palette f0 f cx cy cb cs ch f' :
  drawn palette f0 f ->
  draw_hair_back f palette cx cy cb cs ch = Some f' -> drawn palette f0 f'.
Proof.
  unfold draw_hair_back.
  apply for_in_preserves. intros [px py] g g' Hg.
  by apply paint_drawn.
Qed.

Lemma draw_eyes_drawn palette f0 f direction :
  drawn palette f0 f -> drawn palette f0 (draw_eyes f palette direction).
Proof.
  intros Hd. unfold draw_eyes.
  repeat (destruct (String.eqb _ _)); rewrite ?set_pixel_safe_write;
    repeat (apply write_drawn; [by left|]); done.
Qed.

(** X21: the character is drawn with the palette alone, but for the eyes:
    after [draw_legendary_character] every pixel of the frame is the pixel
    that was there before, an opaque black [(0, 0, 0, 255)] (the eyes are
    stored as this value, not through a palette index) or a fully opaque color
    of the palette; and the frame keeps its shape. *)
Theorem draw_legendary_character_colors (f : frame) (palette : RetroColorPalette)
    (direction : string) (w : Z)
    (skin_base skin_shadow skin_highlight hair_base hair_shadow hair_highlight
     jacket_base jacket_shadow jacket_highlight pants_base pants_shadow pants_highlight
     shoes_base shirt_color : Z) (f' : frame) :
  frame_wf f ->
  draw_legendary_character f palette direction w
    skin_base skin_shadow skin_highlight hair_base hair_shadow hair_highlight
    jacket_base jacket_shadow jacket_highlight pants_base pants_shadow pants_highlight
    shoes_base shirt_color = Some f' ->
  frame_wf f' /\ shape0 f' = shape0 f /\ shape1 f' = shape1 f /\
  forall x y v, pixel_at f' x y = Some v ->
    pixel_at f x y = Some v \/ v = (0, 0, 0, 255)
    \/ exists c, c ∈ colors palette /\ v = opaque c.
Proof.
  intros Hwf Hdraw.
  apply draw_legendary_character_stages in Hdraw
    as (f1 & f2 & f4 & f5 & f6 & f7 & f8 & f9 & g1 & g2 & g3
        & E1 & E2 & E4 & E5 & E6 & E7 & E8 & E9 & G1 & G2 & G3 & G4).
  pose proof (drawn_refl palette f Hwf) as D0.
  pose proof (draw_circle_drawn _ _ _ _ _ _ _ _ _ _ D0 E1) as D1.
  assert (D2 : drawn palette f f2).
  { destruct (negb _).
    - by eapply draw_hair_front_drawn.
    - by eapply draw_hair_back_drawn. }
  pose proof (draw_eyes_drawn _ _ _ direction D2) as D3.
  pose proof (draw_rect_drawn _ _ _ _ _ _ _ _ _ _ _ D3 E4) as D4.
  pose proof (draw_rect_drawn _ _ _ _ _ _ _ _ _ _ _ D4 E5) as D5.
  assert (D6 : drawn palette f f6).
  { destruct (negb (String.eqb direction "west")); [by eapply draw_rect_drawn|].
    by injection E6 as <-. }
  assert (D7 : drawn palette f f7).
  { destruct (negb (String.eqb direction "east")); [by eapply draw_rect_drawn|].
    by injection E7 as <-. }
  pose proof (draw_rect_drawn _ _ _ _ _ _ _ _ _ _ _ D7 E8) as D8.
  pose proof (draw_rect_drawn _ _ _ _ _ _ _ _ _ _ _ D8 E9) as D9.
  pose proof (paint_drawn _ _ _ _ _ _ _ D9 G1) as H1.
  pose proof (paint_drawn _ _ _ _ _ _ _ H1 G2) as H2.
  pose proof (paint_drawn _ _ _ _ _ _ _ H2 G3) as H3.
  destruct (paint_drawn _ _ _ _ _ _ _ H3 G4) as [(? & ? & ?) ?]. done.
Qed.

(** ** Further properties of the generated files *)

Lemma sheet_ok_spec (w h : nat) (cs : list color) (sheet : frame) :
  sheet_ok w h cs sheet = true ->
  frame_wf sheet /\ shape1 sheet = w /\ shape0 sheet = h /\
  forall x y v, pixel_at sheet x y = Some v ->
    v = (0, 0, 0, 0) \/ exists c, c ∈ cs /\ v = opaque c.
Proof.
  unfold sheet_ok. rewrite !andb_true_iff, !bool_decide_eq_true.
  intros [[[H1 H0] Hlen] Hrows]. rewrite forallb_forall in Hrows.
  split_and!; [|done..|].
  - split; [congruence|]. apply List.Forall_forall. intros row Hrow.
    apply Hrows in Hrow. apply andb_true_iff in Hrow as [Hrow _].
    apply bool_decide_eq_true in Hrow. by rewrite H1.
  - intros x y v. unfold pixel_at. destruct ((0 <=? x) && (0 <=? y)); [|done].
    destruct (rows sheet !! Z.to_nat y) as [row|] eqn:Erow; [|done].
    cbn [mbind option_bind]. intros Hv.
    apply list_elem_of_lookup_2, list_elem_of_In in Erow.
    apply list_elem_of_lookup_2, list_elem_of_In in Hv.
    apply Hrows in Erow. apply andb_true_iff in Erow as [_ Hall].
    rewrite forallb_forall in Hall. apply Hall in Hv.
    apply orb_true_iff in Hv as [Hv|Hv].
    + left. by apply bool_decide_eq_true in Hv.
    + right. apply existsb_exists in Hv as (c & Hc & Hv).
      exists c. split; [by apply list_elem_of_In|]. by apply bool_decide_eq_true in Hv.
Qed.

(** X22: whatever the power function behind [x ** 0.5], [main] raises nothing
    and writes four files: the player sheet of 16 frames, 256 by 16, with a
    palette of 15 colors, and the tile sheet of 4 frames, 64 by 16, with a
    palette of 14 colors.  Both palettes stay below 16 entries, so no requested
    color is replaced by a nearest one, their entries are pairwise distinct,
    and every pixel of a sheet is transparent or an opaque color of the
    palette written beside it. *)
Theorem main_files (pow_half : float -> float) :
  exists player_sheet player_colors tile_sheet tile_colors,
    main pow_half
      = Some [("legendary_player.png"%string, Png player_sheet);
              ("legendary_player_palette.json"%string,
               Json (PaletteData "legendary_player" player_colors 16 16 16));
              ("urban_tiles.png"%string, Png tile_sheet);
              ("urban_tiles_palette.json"%string,
               Json (PaletteData "urban_tiles" tile_colors 16 16 4))] /\
    length player_colors = 15%nat /\ NoDup player_colors /\
    length tile_colors = 14%nat /\ NoDup tile_colors /\
    frame_wf player_sheet /\ shape1 player_sheet = 256%nat /\ shape0 player_sheet = 16%nat /\
    frame_wf tile_sheet /\ shape1 tile_sheet = 64%nat /\ shape0 tile_sheet = 16%nat /\
    (forall x y v, pixel_at player_sheet x y = Some v ->
       v = (0, 0, 0, 0) \/ exists c, c ∈ player_colors /\ v = opaque c) /\
    (forall x y v, pixel_at tile_sheet x y = Some v ->
       v = (0, 0, 0, 0) \/ exists c, c ∈ tile_colors /\ v = opaque c).
Proof.
  remember (main pow_half) as m eqn:E. vm_compute in E.
  match type of E with
  | _ = Some [(_, Png ?ps); (_, Json (PaletteData _ ?pc _ _ _));
              (_, Png ?ts); (_, Json (PaletteData _ ?tc _ _ _))] =>
      assert (Hp : sheet_ok 256 16 pc ps = true) by (vm_compute; reflexivity);
      assert (Ht : sheet_ok 64 16 tc ts = true) by (vm_compute; reflexivity);
      assert (Np : NoDup pc) by (apply (bool_decide_unpack _); vm_compute; exact I);
      assert (Nt : NoDup tc) by (apply (bool_decide_unpack _); vm_compute; exact I);
      exists ps, pc, ts, tc
  end.
  apply sheet_ok_spec in Hp as (Hpwf & Hp1 & Hp0 & Hppix).
  apply sheet_ok_spec in Ht as (Htwf & Ht1 & Ht0 & Htpix).
  subst m. split_and!; done.
Qed.




(** * Further instances *)

Lemma zeros_wf (h w : nat) : frame_wf (zeros h w).
Proof.
  split; simpl; [by rewrite length_replicate|].
  apply Forall_replicate. by rewrite length_replicate.
Defined.

(** The skin tone on a fresh palette is stored at the index returned. *)
Lemma add_color_stores_witness :
  exists i,
    fst (add_color PrimFloat.sqrt (new_palette "p") 255 220 177) = Some i /\
    getitem (colors (snd (add_color PrimFloat.sqrt (new_palette "p") 255 220 177)))
      (Z.of_nat i) = Some (248, 216, 176).
Proof.
  destruct (add_color_stores PrimFloat.sqrt (new_palette "p") 255 220 177)
    as (i & Hi & Hget & _).
  - left. simpl. lia.
  - exists i. split; [exact Hi | exact Hget].
Defined.

(** Entry 0 stays where it is after two further calls. *)
Lemma add_colors_keeps_entries_witness :
  colors (add_colors PrimFloat.sqrt (Palette "p" [(248, 216, 176)]) [(1, 2, 3); (9, 9, 9)])
    !! 0%nat = Some (248, 216, 176).
Proof.
  apply (add_colors_keeps_entries PrimFloat.sqrt (Palette "p" [(248, 216, 176)])
           [(1, 2, 3); (9, 9, 9)] 0 (248, 216, 176)).
  reflexivity.
Defined.


(** A rectangle that starts at column 16 of a 16 x 16 frame, with indices
    that the palette does not have. *)
Lemma draw_rect_with_shading_empty_witness :
  draw_rect_with_shading (zeros 16 16) sample_palette 16 0 4 5 99 99 99 = Some (zeros 16 16).
Proof.
  apply (draw_rect_with_shading_empty (zeros 16 16) sample_palette 16 0 4 5 99 99 99).
  right. right. left. simpl. lia.
Defined.

(** A rectangle above and left of the frame, with a missing highlight index. *)
Lemma draw_rect_with_shading_raises_witness :
  draw_rect_with_shading (zeros 16 16) sample_palette (-9) (-9) 4 5 7 8 99 = None.
Proof.
  apply (draw_rect_with_shading_raises (zeros 16 16) sample_palette (-9) (-9) 4 5 7 8 99).
  - lia.
  - lia.
  - simpl. lia.
  - simpl. lia.
  - reflexivity.
Defined.

(** The left leg, 1 x 4 at (6, 11): its second pixel has the pants highlight. *)
Lemma draw_rect_with_shading_thin_witness :
  exists f',
    draw_rect_with_shading (zeros 16 16) sample_palette 6 11 1 4 10 11 12 = Some f' /\
    pixel_at f' 6 12 = Some (opaque (64, 64, 80)).
Proof.
  destruct (draw_rect_with_shading_thin (zeros 16 16) sample_palette 6 11 1 4 10 11 12
              (64, 64, 80)) as (f' & Hdraw & Hpix).
  - apply zeros_wf.
  - left. reflexivity.
  - reflexivity.
  - exists f'. split; [exact Hdraw|].
    pose proof (Hpix 6 12) as H. rewrite bool_decide_eq_true_2 in H by lia.
    apply H; simpl; lia.
Defined.

(** The front hair facing west: the left end of the top row is in the shadow
    color, the right end is left transparent. *)
Lemma draw_hair_front_sides_witness :
  exists f',
    draw_hair_front (zeros 16 16) sample_palette 8 2 "west" 4 5 6 = Some f' /\
    pixel_at f' 6 2 = Some (opaque (64, 40, 16)) /\
    pixel_at f' 10 2 = pixel_at (zeros 16 16) 10 2.
Proof.
  destruct (draw_hair_front_sides (zeros 16 16) sample_palette 8 2 "west" 4 5 6
              (96, 64, 32) (64, 40, 16) (136, 88, 48)) as (f' & Hdraw & Hpix).
  - apply zeros_wf.
  - reflexivity.
  - reflexivity.
  - reflexivity.
  - exists f'. split; [exact Hdraw|]. split.
    + destruct (Hpix 6 2) as [_ Hin]; [simpl; lia..|].
      destruct Hin as (Hl & _ & _); [apply (bool_decide_unpack _); vm_compute; exact I|].
      destruct Hl as [_ Hne]; [lia|]. apply Hne. discriminate.
    + destruct (Hpix 10 2) as [_ Hin]; [simpl; lia..|].
      destruct Hin as (_ & Hr & _); [apply (bool_decide_unpack _); vm_compute; exact I|].
      destruct Hr as [Hw _]; [lia|]. apply Hw. reflexivity.
Defined.

(** The south-facing character on the sample palette. *)
Lemma draw_legendary_character_succeeds_witness :
  exists f',
    draw_legendary_character (zeros 16 16) sample_palette "south" 0
      1 2 3 4 5 6 7 8 9 10 11 12 13 14 = Some f' /\
    shape0 f' = 16%nat /\ shape1 f' = 16%nat.
Proof.
  destruct (draw_legendary_character_succeeds (zeros 16 16) sample_palette "south" 0
              1 2 3 4 5 6 7 8 9 10 11 12 13 14) as (f' & Hdraw & _ & H0 & H1).
  - apply zeros_wf.
  - repeat (constructor; [eexists; vm_compute; reflexivity|]). constructor.
  - exists f'. split_and!; [exact Hdraw | exact H0 | exact H1].
Defined.

(** The pixel (3, 3) lies left of the character. *)
Lemma draw_legendary_character_confined_witness :
  exists f',
    draw_legendary_character (zeros 16 16) sample_palette "south" 0
      1 2 3 4 5 6 7 8 9 10 11 12 13 14 = Some f' /\
    pixel_at f' 3 3 = pixel_at (zeros 16 16) 3 3.
Proof.
  destruct (draw_legendary_character (zeros 16 16) sample_palette "south" 0
              1 2 3 4 5 6 7 8 9 10 11 12 13 14) as [f'|] eqn:E;
    [|vm_compute in E; discriminate E].
  exists f'. split; [reflexivity|].
  destruct (draw_legendary_character_confined (zeros 16 16) sample_palette "south" 0
              1 2 3 4 5 6 7 8 9 10 11 12 13 14 f' 3 3) as (_ & _ & _ & H).
  - apply zeros_wf.
  - exact E.
  - left. lia.
  - exact H.
Defined.

(** Facing south the right arm shows the jacket highlight on row 8. *)
Lemma draw_legendary_character_right_arm_witness :
  exists f',
    draw_legendary_character (zeros 16 16) sample_palette "south" 0
      1 2 3 4 5 6 7 8 9 10 11 12 13 14 = Some f' /\
    pixel_at f' 10 8 = Some (opaque (96, 144, 200)).
Proof.
  destruct (draw_legendary_character (zeros 16 16) sample_palette "south" 0
              1 2 3 4 5 6 7 8 9 10 11 12 13 14) as [f'|] eqn:E;
    [|vm_compute in E; discriminate E].
  exists f'. split; [reflexivity|].
  destruct (draw_legendary_character_right_arm (zeros 16 16) sample_palette "south" 0
              1 2 3 4 5 6 7 8 9 10 11 12 13 14 f' 8) as [_ H].
  - apply zeros_wf.
  - lia.
  - lia.
  - simpl. lia.
  - simpl. lia.
  - exact E.
  - destruct H as (c & Hc & Hp); [discriminate|].
    vm_compute in Hc. injection Hc as <-. exact Hp.
Defined.

(** Facing west the left eye pixel is black and the right one skin. *)
Lemma draw_legendary_character_eyes_witness :
  exists f',
    draw_legendary_character (zeros 16 16) sample_palette "west" 0
      1 2 3 4 5 6 7 8 9 10 11 12 13 14 = Some f' /\
    pixel_at f' 7 4 = Some (0, 0, 0, 255) /\
    pixel_at f' 9 4 = Some (opaque (248, 216, 176)).
Proof.
  destruct (draw_legendary_character (zeros 16 16) sample_palette "west" 0
              1 2 3 4 5 6 7 8 9 10 11 12 13 14) as [f'|] eqn:E;
    [|vm_compute in E; discriminate E].
  exists f'. split; [reflexivity|].
  destruct (draw_legendary_character_eyes (zeros 16 16) sample_palette "west" 0
              1 2 3 4 5 6 7 8 9 10 11 12 13 14
              (248, 216, 176) (208, 176, 136) (248, 240, 200) f') as (_ & H & _).
  - apply zeros_wf.
  - lia.
  - simpl. lia.
  - simpl. lia.
  - reflexivity.
  - reflexivity.
  - reflexivity.
  - exact E.
  - apply H. reflexivity.
Defined.

(** The grass painter raises on a light index that the palette does not have. *)
Lemma tile_painters_cover_witness :
  draw_grass_patch (zeros 16 16) sample_palette 4 5 99 = None.
Proof.
  pose proof (tile_painters_cover (zeros 16 16) sample_palette 4 5 99 (zeros_wf 16 16)) as H.
  rewrite List.Forall_forall in H.
  destruct (H draw_grass_patch) as [Hnone _]; [simpl; tauto|].
  apply Hnone. right. right. reflexivity.
Defined.

(** The concrete tile: (3, 1) is light, (1, 2) dark. *)
Lemma draw_concrete_tile_pattern_witness :
  exists f',
    draw_concrete_tile (zeros 16 16) sample_palette 4 5 6 = Some f' /\
    pixel_at f' 3 1 = Some (opaque (136, 88, 48)) /\
    pixel_at f' 1 2 = Some (opaque (64, 40, 16)).
Proof.
  destruct (draw_concrete_tile_pattern (zeros 16 16) sample_palette 4 5 6
              (96, 64, 32) (64, 40, 16) (136, 88, 48)) as (f' & Hdraw & Hpix).
  - apply zeros_wf.
  - reflexivity.
  - reflexivity.
  - reflexivity.
  - exists f'. split; [exact Hdraw|]. split.
    + destruct (Hpix 3 1) as (Hl & _); [lia | lia | unfold in_bounds; simpl; lia |].
      apply Hl. reflexivity.
    + destruct (Hpix 1 2) as (_ & Hd & _); [lia | lia | unfold in_bounds; simpl; lia |].
      apply Hd; [discriminate | reflexivity].
Defined.

(** The asphalt tile with the yellow line: (0, 7) is on a dash, (7, 0) dark. *)
Lemma draw_asphalt_road_pattern_witness :
  exists f',
    draw_asphalt_road (zeros 16 16) sample_palette 4 5 15 = Some f' /\
    pixel_at f' 0 7 = Some (opaque (248, 248, 0)) /\
    pixel_at f' 7 0 = Some (opaque (64, 40, 16)).
Proof.
  destruct (draw_asphalt_road_pattern (zeros 16 16) sample_palette 4 5 15
              (96, 64, 32) (64, 40, 16) (248, 248, 0)) as (f' & Hdraw & Hpix).
  - apply zeros_wf.
  - reflexivity.
  - reflexivity.
  - reflexivity.
  - exists f'. split; [exact Hdraw|]. split.
    + destruct (Hpix 0 7) as (Hline & _); [lia | lia | unfold in_bounds; simpl; lia |].
      destruct Hline as (Hdash & _); [left; reflexivity|].
      apply Hdash. reflexivity.
    + destruct (Hpix 7 0) as (_ & Hrest); [lia | lia | unfold in_bounds; simpl; lia |].
      destruct Hrest as (Hd & _); [discriminate | discriminate |].
      apply Hd. reflexivity.
Defined.

(** The grass tile: (0, 0) is light, (1, 0) base. *)
Lemma draw_grass_patch_pattern_witness :
  exists f',
    draw_grass_patch (zeros 16 16) sample_palette 4 5 6 = Some f' /\
    pixel_at f' 0 0 = Some (opaque (136, 88, 48)) /\
    pixel_at f' 1 0 = Some (opaque (96, 64, 32)).
Proof.
  destruct (draw_grass_patch_pattern (zeros 16 16) sample_palette 4 5 6
              (96, 64, 32) (64, 40, 16) (136, 88, 48)) as (f' & Hdraw & Hpix).
  - apply zeros_wf.
  - reflexivity.
  - reflexivity.
  - reflexivity.
  - exists f'. split; [exact Hdraw|]. split.
    + destruct (Hpix 0 0) as (Hl & _); [lia | lia | unfold in_bounds; simpl; lia |].
      apply Hl. reflexivity.
    + destruct (Hpix 1 0) as (_ & _ & Hb & _); [lia | lia | unfold in_bounds; simpl; lia |].
      apply Hb. discriminate.
Defined.

(** On the brick tile the pixel (11, 2) repeats the pixel (3, 2). *)
Lemma draw_brick_wall_periodic_witness :
  exists f',
    draw_brick_wall (zeros 16 16) sample_palette 4 5 6 = Some f' /\
    pixel_at f' 11 2 = pixel_at f' 3 2.
Proof.
  destruct (draw_brick_wall_periodic (zeros 16 16) sample_palette 4 5 6
              (96, 64, 32) (64, 40, 16) (136, 88, 48)) as (f' & Hdraw & Hper).
  - apply zeros_wf.
  - simpl. lia.
  - simpl. lia.
  - reflexivity.
  - reflexivity.
  - reflexivity.
  - exists f'. split; [exact Hdraw|].
    destruct (Hper 3 2) as (H & _ & _); [lia | lia |]. exact H.
Defined.

(** On an empty frame every pixel of the character is transparent, black or a
    color of the sample palette. *)
Lemma draw_legendary_character_colors_witness :
  exists f',
    draw_legendary_character (zeros 16 16) sample_palette "south" 0
      1 2 3 4 5 6 7 8 9 10 11 12 13 14 = Some f' /\
    forall x y v, pixel_at f' x y = Some v ->
      pixel_at (zeros 16 16) x y = Some v \/ v = (0, 0, 0, 255)
      \/ exists c, c ∈ colors sample_palette /\ v = opaque c.
Proof.
  destruct (draw_legendary_character (zeros 16 16) sample_palette "south" 0
              1 2 3 4 5 6 7 8 9 10 11 12 13 14) as [f'|] eqn:E;
    [|vm_compute in E; discriminate E].
  exists f'. split; [reflexivity|].
  destruct (draw_legendary_character_colors (zeros 16 16) sample_palette "south" 0
              1 2 3 4 5 6 7 8 9 10 11 12 13 14 f') as (_ & _ & _ & H).
  - apply zeros_wf.
  - exact E.
  - exact H.
Defined.

